(** * Pre-processing of SBOM data: a model of [output_pre_process.py]

    The function [pre_process] of
    [scripts/west_commands/sbom/output_pre_process.py] normalises the data
    collected by the scanner (files, packages, licenses, relationships)
    before the output modules use it.  This file embeds the function pass by
    pass and states the properties of the specification
    over that embedding.

    Modelling choices.
    - Python [str] is [string]; comparison of strings is the lexicographic
      order on character codes ([String.le]).
    - Python [set] is stdpp's [gset]: the code only tests membership, takes
      sizes, and iterates through [sorted].
    - [used_licenses] / [data.licenses] and [package_name_map] are [gmap]s.
    - [data.packages] and [package_to_files] are iterated in insertion
      order, so they are association lists; the package objects live in
      that list and [package_name_map] refers to them by position, so that
      a mutation through [existing] reaches the object in [data.packages].
    - A statement that can raise (a [KeyError] on [d[k]], an operation on
      [None]) returns [None] in the [option] monad.
    - The collaborators imported from [license_utils] and the builtin
      [str.upper] are parameters of the development. *)

From Stdlib Require Import String Ascii DecimalString DecimalNat.
From stdpp Require Import base option list sorting gmap sets strings.

(* [naive_solver] warns about hypotheses that its own steps have already
   cleared. *)
Set Warnings "-clear-no-such-hyp".

(** ** Python builtins used by the code *)

Module Py.

(** [f'{n}'] for a non-negative integer. *)
Definition str_of_nat (n : nat) : string :=
  NilEmpty.string_of_uint (Nat.to_uint n).

(** [s.startswith(p)] *)
Definition startswith (s p : string) : bool := String.prefix p s.

(** [s[n:]] for [n >= 0]; Python yields [''] when [n] exceeds the length. *)
Fixpoint drop (n : nat) (s : string) : string :=
  match n, s with
  | O, _ => s
  | S _, EmptyString => EmptyString
  | S n', String _ s' => drop n' s'
  end.

(** [s[:n]] for [n >= 0]. *)
Fixpoint take (n : nat) (s : string) : string :=
  match n, s with
  | O, _ => EmptyString
  | S _, EmptyString => EmptyString
  | S n', String c s' => String c (take n' s')
  end.

(** [s.find(sub)]: the lowest index where [sub] occurs; [None] stands for
    Python's [-1]. *)
Fixpoint find (sub s : string) : option nat :=
  if String.prefix sub s then Some 0
  else match s with
       | EmptyString => None
       | String _ s' => S <$> find sub s'
       end.

(** [sub in s] *)
Definition contains (sub s : string) : bool :=
  match find sub s with Some _ => true | None => false end.

(** [s.endswith(suf)] *)
Definition endswith (s suf : string) : bool :=
  bool_decide (drop (String.length s - String.length suf) s = suf).

(** [s[:-n]] for [n > 0] *)
Definition drop_end (n : nat) (s : string) : string :=
  take (String.length s - n) s.

(** [sep.join(l)] *)
Definition join (sep : string) (l : list string) : string :=
  String.concat sep l.

(** [sorted(l, key=key)] and [l.sort(key=key)]: Python's sort is stable, and
    so is this insertion sort; a stable sort has one possible result. *)
Section Sorted.
Context {A : Type} (key : A → string).

Fixpoint insert_by (x : A) (l : list A) : list A :=
    match l with
    | [] => [x]
    | y :: l' =>
        if bool_decide (String.le (key x) (key y)) then x :: y :: l'
        else y :: insert_by x l'
    end.

Definition sorted_by (l : list A) : list A := foldr insert_by [] l.
End Sorted.

(** [sorted(l)] on strings *)
Definition sorted (l : list string) : list string := sorted_by id l.

(** Truthiness of an optional string attribute ([if x:], [x or y]). *)
Definition truthy (o : option string) : bool :=
  match o with
  | Some s => negb (bool_decide (s = ""))
  | None => false
  end.

End Py.

(** ** Data structures

    The classes of [data_structure] as the code reads and writes them. *)

(** Result of [get_spdx_license_expr_info]. *)
Module LicenseExprInfo.
Record t := mk {
    valid : bool;
    is_id_only : bool;
    or_present : bool;
    licenses : list string;
    friendly_expr : string
  }.
End LicenseExprInfo.

Module License.
Record t := mk {
    id : string;
    friendly_id : string;
    custom : bool
  }.
Definition set_ids (i : string) (l : t) : t :=
    {| id := i; friendly_id := i; custom := custom l |}.
End License.

Module LicenseExpr.
Record t := mk {
    valid : bool;
    id : string;
    friendly_id : string;
    licenses : list string;
    custom : bool
  }.
End LicenseExpr.

(** A value of [data.licenses]: a [License] ([is_expr = False]) or a
    [LicenseExpr] ([is_expr = True]). *)
Inductive LicenseEntry :=
  | IsLicense (l : License.t)
  | IsExpr (e : LicenseExpr.t).

Definition is_expr (e : LicenseEntry) : bool :=
  match e with IsLicense _ => false | IsExpr _ => true end.

Definition custom (e : LicenseEntry) : bool :=
  match e with
  | IsLicense l => License.custom l
  | IsExpr e => LicenseExpr.custom e
  end.

Module File.
Record t := mk {
    file_path : string;
    licenses : list string;
    detectors : gset string;
    package : string;
    license_expr : string;
    spdx_id : string
  }.
Definition set_license_expr (e : string) (f : t) : t :=
    {| file_path := file_path f; licenses := licenses f;
       detectors := detectors f; package := package f;
       license_expr := e; spdx_id := spdx_id f |}.
Definition set_spdx_id (s : string) (f : t) : t :=
    {| file_path := file_path f; licenses := licenses f;
       detectors := detectors f; package := package f;
       license_expr := license_expr f; spdx_id := s |}.
End File.

Module Package.
Record t := mk {
    id : string;
    name : option string;
    version : option string;
    url : option string;
    browser_url : option string;
    external_refs : option (list string);
    spdx_id : option string
  }.
Definition set_name (n : option string) (p : t) : t :=
    {| id := id p; name := n; version := version p; url := url p;
       browser_url := browser_url p; external_refs := external_refs p;
       spdx_id := spdx_id p |}.
Definition set_version (v : option string) (p : t) : t :=
    {| id := id p; name := name p; version := v; url := url p;
       browser_url := browser_url p; external_refs := external_refs p;
       spdx_id := spdx_id p |}.
Definition set_browser_url (b : option string) (p : t) : t :=
    {| id := id p; name := name p; version := version p; url := url p;
       browser_url := b; external_refs := external_refs p;
       spdx_id := spdx_id p |}.
Definition set_external_refs (r : option (list string)) (p : t) : t :=
    {| id := id p; name := name p; version := version p; url := url p;
       browser_url := browser_url p; external_refs := r;
       spdx_id := spdx_id p |}.
Definition set_spdx_id (s : option string) (p : t) : t :=
    {| id := id p; name := name p; version := version p; url := url p;
       browser_url := browser_url p; external_refs := external_refs p;
       spdx_id := s |}.
End Package.

Module Relationship.
Record t := mk {
    spdx_id : string;
    relationship_type : string;
    related_spdx_id : string
  }.
Global Instance eq_dec : EqDecision t.
Proof. solve_decision. Defined.
End Relationship.

(** The aggregate root.  [relationships] is [None] when the attribute is
    absent ([hasattr(data, 'relationships')] false). *)
Module Data.
Record t := mk {
    files : list File.t;
    packages : list (string * Package.t);
    licenses : gmap string (option LicenseEntry);
    licenses_sorted : list string;
    packages_sorted : list string;
    detectors : gset string;
    relationships : option (list Relationship.t)
  }.
End Data.

(** ** Dictionaries in insertion order

    [data.packages] and [package_to_files] are Python dicts whose iteration
    order the code relies on: an association list, read by the first match
    and written in place, a new key going to the end. *)

Fixpoint dict_get {V} (d : list (string * V)) (k : string) : option V :=
  match d with
  | [] => None
  | (k', v) :: d' => if decide (k' = k) then Some v else dict_get d' k
  end.

Fixpoint dict_set {V} (k : string) (v : V) (d : list (string * V))
  : list (string * V) :=
  match d with
  | [] => [(k, v)]
  | (k', v') :: d' =>
      if decide (k' = k) then (k', v) :: d' else (k', v') :: dict_set k v d'
  end.

Definition dict_keys {V} (d : list (string * V)) : list string := d.*1.

(** [for x in l: b = f(b, x)], where the body can raise. *)
Fixpoint foldlM {A B} (f : B → A → option B) (b : B) (l : list A)
  : option B :=
  match l with
  | [] => Some b
  | x :: l' => b' ← f b x; foldlM f b' l'
  end.

(** ** The environment of [pre_process]

    [get_spdx_license_expr_info], [is_spdx_license] and [get_license] are
    imported from [license_utils]; [License()] comes from [data_structure];
    [upper] is [str.upper].  The code treats them as pure functions. *)

Class Env := {
  upper : string → string;
  get_spdx_license_expr_info : string → LicenseExprInfo.t;
  is_spdx_license : string → bool;
  get_license : string → option License.t;
  new_License : License.t
}.

(** The three working sets of the license-expression loop. *)
Record ExprItems := {
  simple_expr_items : gset string;
  or_expr_items : gset string;
  repeated_expr_items : gset string
}.

Section Model.
Context `{Env}.

(** *** Sort files (line 17) *)

Definition sort_files (files : list File.t) : list File.t :=
  Py.sorted_by File.file_path files.

(** *** License list to license expression (lines 19-36) *)

(** The two tests of the loop body, on the resolver's answer: line 27 and
    line 29. *)
Definition is_compound (info : LicenseExprInfo.t) : bool :=
  LicenseExprInfo.valid info && negb (LicenseExprInfo.is_id_only info)
  && bool_decide (1 < length (LicenseExprInfo.licenses info)).

Definition is_or_item (info : LicenseExprInfo.t) : bool :=
  negb (LicenseExprInfo.valid info) || LicenseExprInfo.or_present info.

(** Body of [for license in licenses] (lines 25-32): an [if] that feeds the
    repeated set, followed by a separate [if]/[else] that files the token. *)
Definition classify (items : ExprItems) (license : string) : ExprItems :=
  let license := upper license in
  let info := get_spdx_license_expr_info license in
  let repeated_expr_items :=
    if is_compound info
    then repeated_expr_items items ∪ list_to_set (LicenseExprInfo.licenses info)
    else repeated_expr_items items in
  if is_or_item info
  then {| simple_expr_items := simple_expr_items items;
          or_expr_items := or_expr_items items ∪ {[license]};
          repeated_expr_items := repeated_expr_items |}
  else {| simple_expr_items := simple_expr_items items ∪ {[license]};
          or_expr_items := or_expr_items items;
          repeated_expr_items := repeated_expr_items |}.

(** [file.licenses if len(file.licenses) > 0 else ['']] *)
Definition licenses_or_sentinel (raw : list string) : list string :=
  if bool_decide (0 < length raw) then raw else [""].

(** The sets after the loop of lines 24-32. *)
Definition classify_all (raw : list string) : ExprItems :=
  foldl classify
    {| simple_expr_items := ∅; or_expr_items := ∅; repeated_expr_items := ∅ |}
    (licenses_or_sentinel raw).

Definition parenthesize (x : string) : string := "(" +:+ x +:+ ")".

(** Lines 33-36: the value stored in [file.license_expr]. *)
Definition build_license_expr (raw : list string) : string :=
  let items := classify_all raw in
  let simple_expr_items := simple_expr_items items ∖ repeated_expr_items items in
  let or_expr_items :=
    if bool_decide (1 < size (or_expr_items items))
       || bool_decide (0 < size simple_expr_items)
    then set_map parenthesize (or_expr_items items)
    else or_expr_items items in
  Py.join " AND " (Py.sorted (elements (simple_expr_items ∪ or_expr_items))).

Definition set_license_exprs (files : list File.t) : list File.t :=
  (λ file, File.set_license_expr (build_license_expr (File.licenses file)) file)
    <$> files.

(** *** Collect all used detectors (lines 38-39) *)

Definition collect_detectors (detectors : gset string) (files : list File.t)
  : gset string :=
  foldl (λ acc file, acc ∪ File.detectors file) detectors files.

(** *** Collect all used licenses (lines 41-72) *)

(** The [LicenseExpr] built on lines 47-56. *)
Definition make_expr (license_expr : string) (info : LicenseExprInfo.t)
  : LicenseExpr.t :=
  let licenses := Py.sorted (LicenseExprInfo.licenses info) in
  {| LicenseExpr.valid := LicenseExprInfo.valid info;
     LicenseExpr.id := license_expr;
     LicenseExpr.friendly_id := LicenseExprInfo.friendly_expr info;
     LicenseExpr.licenses := licenses;
     LicenseExpr.custom :=
       negb (LicenseExprInfo.valid info)
       || existsb (λ id, negb (is_spdx_license id)) licenses |}.

(** Body of [for id in info.licenses] (lines 59-71); [old] is
    [data.licenses] as it was on entry. *)
Definition register_id (old : gmap string (option LicenseEntry))
    (used_licenses : gmap string (option LicenseEntry)) (id : string)
  : gmap string (option LicenseEntry) :=
  if bool_decide (id ∈ dom used_licenses) then used_licenses
  else if is_spdx_license id then
    <[id := IsLicense <$> get_license id]> used_licenses
  else match old !! id with
       | Some entry => <[id := entry]> used_licenses
       | None =>
           let lic :=
             match get_license id with
             | Some lic => lic
             | None => License.set_ids id new_License
             end in
           <[id := Some (IsLicense lic)]> used_licenses
       end.

(** Body of [for file in data.files] (lines 43-71). *)
Definition register_file (old : gmap string (option LicenseEntry))
    (used_licenses : gmap string (option LicenseEntry)) (file : File.t)
  : gmap string (option LicenseEntry) :=
  let license_expr := File.license_expr file in
  if bool_decide (license_expr ∈ dom used_licenses) then used_licenses
  else
    let info := get_spdx_license_expr_info license_expr in
    let used_licenses :=
      if negb (LicenseExprInfo.valid info)
         || negb (LicenseExprInfo.is_id_only info)
      then <[license_expr := Some (IsExpr (make_expr license_expr info))]>
             used_licenses
      else used_licenses in
    foldl (register_id old) used_licenses (LicenseExprInfo.licenses info).

Definition collect_licenses (old : gmap string (option LicenseEntry))
    (files : list File.t) : gmap string (option LicenseEntry) :=
  foldl (register_file old) ∅ files.

(** *** Sort licenses (lines 74-91) *)

(** [lic_reorder]: [data.licenses[id]] raises on a missing key and
    [lic.is_expr] raises when the stored value is [None]. *)
Definition lic_reorder (licenses : gmap string (option LicenseEntry))
    (id : string) : option string :=
  lic ← licenses !! id;
  if bool_decide (id = "") then Some "A"
  else
    lic ← lic;
    if is_expr lic then
      if custom lic then Some ("B" +:+ id) else Some ("E" +:+ id)
    else
      if Py.startswith id "LicenseRef-" then Some ("D" +:+ id)
      else if custom lic then Some ("C" +:+ id)
      else Some ("F" +:+ id).

(** [sorted(data.licenses.keys(), key=lic_reorder)].  The keys of
    [lic_reorder] are pairwise distinct, so the order in which the dict
    lists its keys does not show in the result. *)
Definition sort_licenses (licenses : gmap string (option LicenseEntry))
  : option (list string) :=
  keyed ← mapM (λ id, (λ k, (k, id)) <$> lic_reorder licenses id)
               (elements (dom licenses));
  Some ((Py.sorted_by fst keyed).*2).

(** *** Assign SPDX identifiers (lines 95-105) *)

Definition package_ref (n : nat) : string :=
  "SPDXRef-Package-" +:+ Py.str_of_nat n.

Definition file_ref (n : nat) : string :=
  "SPDXRef-File-" +:+ Py.str_of_nat n.

(** Body of [for package_id in data.packages_sorted] (lines 97-101); the
    state is the counter and [data.packages]. *)
Definition assign_package_id (st : nat * list (string * Package.t))
    (package_id : string) : option (nat * list (string * Package.t)) :=
  let '(package_counter, packages) := st in
  package ← dict_get packages package_id;
  let package := Package.set_spdx_id (Some (package_ref package_counter)) package in
  let package :=
    match Package.external_refs package with
    | None => Package.set_external_refs (Some []) package
    | Some _ => package
    end in
  Some (S package_counter, dict_set package_id package packages).

Fixpoint assign_file_ids (file_counter : nat) (files : list File.t)
  : list File.t :=
  match files with
  | [] => []
  | file :: files' =>
      File.set_spdx_id (file_ref file_counter) file
        :: assign_file_ids (S file_counter) files'
  end.

(** *** Friendly package information (lines 107-128) *)

(** The package objects are the second components of [data.packages];
    [package_name_map] holds positions in that list, so an update through
    [existing] is an update of the list. *)
Definition get_obj (packages : list (string * Package.t)) (i : nat)
  : option Package.t :=
  snd <$> packages !! i.

Definition set_obj (i : nat) (package : Package.t)
    (packages : list (string * Package.t)) : list (string * Package.t) :=
  alter (λ kv, (kv.1, package)) i packages.

(** Lines 109-110. *)
Definition default_version (package : Package.t) : Package.t :=
  match Package.version package with
  | None => Package.set_version (Some "NoneVersion") package
  | Some _ => package
  end.

(** Lines 114-117: the name taken from a GitHub URL, [pos] being
    [package.url.find('github.com')]. *)
Definition github_name (pos : nat) (url : string) : string :=
  let offs := pos + String.length "github.com" + 1 in
  let name := Py.drop offs url in
  if Py.endswith name ".git" then Py.drop_end 4 name else name.

(** Lines 113-117; ['github.com' in package.url] holds exactly when [find]
    returns an index. *)
Definition derive_name (url : string) (package : Package.t) : Package.t :=
  match Package.name package, Py.find "github.com" url with
  | None, Some pos => Package.set_name (Some (github_name pos url)) package
  | _, _ => package
  end.

(** Lines 118-119: [package.id or package.url or 'NoneName']. *)
Definition fallback_name (url : string) (package : Package.t) : Package.t :=
  match Package.name package with
  | None =>
      let name :=
        if negb (bool_decide (Package.id package = "")) then Package.id package
        else if negb (bool_decide (url = "")) then url
        else "NoneName" in
      Package.set_name (Some name) package
  | Some _ => package
  end.

(** Lines 127-128. *)
Definition default_browser_url (url : string) (package : Package.t)
  : Package.t :=
  match Package.browser_url package with
  | None =>
      if Py.startswith url "http" then Package.set_browser_url (Some url) package
      else package
  | Some _ => package
  end.

(** Lines 120-125, taken when [package.name in package_name_map]: [e] is
    [package_name_map[package.name]], [i] the package being visited. *)
Definition rename_both (i e : nat) (name : string)
    (packages : list (string * Package.t)) (package_name_map : gmap string nat)
  : option (list (string * Package.t) * gmap string nat) :=
  let package_name_map := delete name package_name_map in
  package ← get_obj packages i;
  version ← Package.version package;
  let packages :=
    set_obj i (Package.set_name (Some (name +:+ "-" +:+ version)) package)
      packages in
  existing ← get_obj packages e;
  existing_name ← Package.name existing;
  existing_version ← Package.version existing;
  let existing_name := existing_name +:+ "-" +:+ existing_version in
  let packages :=
    set_obj e (Package.set_name (Some existing_name) existing) packages in
  Some (packages, <[existing_name := e]> package_name_map).

(** Body of [for package in data.packages.values()] (lines 109-128) for the
    package at position [i]. *)
Definition name_step (st : list (string * Package.t) * gmap string nat)
    (i : nat) : option (list (string * Package.t) * gmap string nat) :=
  let '(packages, package_name_map) := st in
  package ← get_obj packages i;
  let package := default_version package in
  match Package.url package with
  | None => Some (set_obj i package packages, package_name_map)
  | Some url =>
      let package := fallback_name url (derive_name url package) in
      let packages := set_obj i package packages in
      name ← Package.name package;
      '(packages, package_name_map) ←
        match package_name_map !! name with
        | Some e => rename_both i e name packages package_name_map
        | None => Some (packages, package_name_map)
        end;
      package ← get_obj packages i;
      name ← Package.name package;
      let package_name_map := <[name := i]> package_name_map in
      Some (set_obj i (default_browser_url url package) packages,
            package_name_map)
  end.

Definition friendly_packages (packages : list (string * Package.t))
  : option (list (string * Package.t) * gmap string nat) :=
  foldlM name_step (packages, ∅) (seq 0 (length packages)).

(** *** Relationships (lines 130-162) *)

Definition DOCUMENT : string := "SPDXRef-DOCUMENT".

Definition should_keep_relationship (rel : Relationship.t) : bool :=
  if bool_decide (Relationship.spdx_id rel = DOCUMENT)
     && bool_decide (Relationship.relationship_type rel = "DESCRIBES")
  then false
  else if bool_decide (Relationship.relationship_type rel = "CONTAINS")
  then false
  else true.

(** Lines 136-139. *)
Definition base_relationships (relationships : option (list Relationship.t))
  : list Relationship.t :=
  match relationships with
  | Some rels => List.filter should_keep_relationship rels
  | None => []
  end.

(** [package_to_files.setdefault(file.package, list()).append(file.spdx_id)] *)
Definition setdefault_append (package_to_files : list (string * list string))
    (file : File.t) : list (string * list string) :=
  let file_ids := default [] (dict_get package_to_files (File.package file)) in
  dict_set (File.package file) (file_ids ++ [File.spdx_id file]) package_to_files.

(** Lines 141-143. *)
Definition group_files (files : list File.t) : list (string * list string) :=
  foldl setdefault_append [] files.

Definition describes (package_spdx_id : string) : Relationship.t :=
  {| Relationship.spdx_id := DOCUMENT;
     Relationship.relationship_type := "DESCRIBES";
     Relationship.related_spdx_id := package_spdx_id |}.

Definition contains (package_spdx_id file_id : string) : Relationship.t :=
  {| Relationship.spdx_id := package_spdx_id;
     Relationship.relationship_type := "CONTAINS";
     Relationship.related_spdx_id := file_id |}.

(** Body of the loop of lines 145-152; [data.packages[package_id]] raises on
    a missing key. *)
Definition describe_step (packages : list (string * Package.t))
    (packages_with_files : gset string) (relationships : list Relationship.t)
    (package_id : string) : option (list Relationship.t) :=
  package ← dict_get packages package_id;
  match Package.spdx_id package with
  | Some spdx_id =>
      if Py.truthy (Some spdx_id)
         && bool_decide (package_id ∈ packages_with_files)
      then Some (relationships ++ [describes spdx_id])
      else Some relationships
  | None => Some relationships
  end.

(** Body of the loop of lines 153-162; [data.packages.get] does not raise. *)
Definition contains_step (packages : list (string * Package.t))
    (relationships : list Relationship.t) (group : string * list string)
  : list Relationship.t :=
  let '(package_id, file_ids) := group in
  match dict_get packages package_id with
  | None => relationships
  | Some package =>
      match Package.spdx_id package with
      | Some spdx_id =>
          if negb (Py.truthy (Some spdx_id)) then relationships
          else relationships ++ (contains spdx_id <$> file_ids)
      | None => relationships
      end
  end.

Definition derive_relationships (relationships : option (list Relationship.t))
    (packages : list (string * Package.t)) (packages_sorted : list string)
    (files : list File.t) : option (list Relationship.t) :=
  let base_relationships := base_relationships relationships in
  let package_to_files := group_files files in
  let packages_with_files : gset string :=
    list_to_set (dict_keys package_to_files) in
  relationships ←
    foldlM (describe_step packages packages_with_files)
      base_relationships packages_sorted;
  Some (foldl (contains_step packages) relationships package_to_files).

(** *** The whole function *)

Definition pre_process (data : Data.t) : option Data.t :=
  let files := sort_files (Data.files data) in
  let files := set_license_exprs files in
  let detectors := collect_detectors (Data.detectors data) files in
  let licenses := collect_licenses (Data.licenses data) files in
  licenses_sorted ← sort_licenses licenses;
  let packages_sorted := Py.sorted (dict_keys (Data.packages data)) in
  '(_, packages) ←
    foldlM assign_package_id (1, Data.packages data) packages_sorted;
  let files := assign_file_ids 1 files in
  '(packages, _) ← friendly_packages packages;
  relationships ←
    derive_relationships (Data.relationships data) packages packages_sorted
      files;
  Some {| Data.files := files;
          Data.packages := packages;
          Data.licenses := licenses;
          Data.licenses_sorted := licenses_sorted;
          Data.packages_sorted := packages_sorted;
          Data.detectors := detectors;
          Data.relationships := Some relationships |}.

End Model.

(** ** A sample environment

    A small registry and resolver on which the functions above can be run:
    [upper] on ASCII letters, four registered identifiers looked up without
    regard to case, and a resolver
    that knows three compound expressions, takes any other string with a
    blank for unparseable and any string without blanks for a bare
    identifier. *)

Definition ascii_upper (c : ascii) : ascii :=
  let n := nat_of_ascii c in
  if bool_decide (97 ≤ n ≤ 122) then ascii_of_nat (n - 32) else c.

Fixpoint str_upper (s : string) : string :=
  match s with
  | EmptyString => EmptyString
  | String c s' => String (ascii_upper c) (str_upper s')
  end.

Definition sample_registry : list string :=
  ["APACHE-2.0"; "BSD-3-CLAUSE"; "GPL-2.0"; "MIT"].

Definition sample_info (expr : string) : LicenseExprInfo.t :=
  if bool_decide (expr = "MIT OR BSD-3-CLAUSE") then
    {| LicenseExprInfo.valid := true; LicenseExprInfo.is_id_only := false;
       LicenseExprInfo.or_present := true;
       LicenseExprInfo.licenses := ["BSD-3-CLAUSE"; "MIT"];
       LicenseExprInfo.friendly_expr := expr |}
  else if bool_decide (expr = "APACHE-2.0 AND MIT") then
    {| LicenseExprInfo.valid := true; LicenseExprInfo.is_id_only := false;
       LicenseExprInfo.or_present := false;
       LicenseExprInfo.licenses := ["APACHE-2.0"; "MIT"];
       LicenseExprInfo.friendly_expr := expr |}
  else if bool_decide (expr = "(MIT OR BSD-3-CLAUSE) AND GPL-2.0") then
    {| LicenseExprInfo.valid := true; LicenseExprInfo.is_id_only := false;
       LicenseExprInfo.or_present := false;
       LicenseExprInfo.licenses := ["BSD-3-CLAUSE"; "GPL-2.0"; "MIT"];
       LicenseExprInfo.friendly_expr := expr |}
  else if Py.contains " " expr then
    {| LicenseExprInfo.valid := false; LicenseExprInfo.is_id_only := false;
       LicenseExprInfo.or_present := false;
       LicenseExprInfo.licenses := [];
       LicenseExprInfo.friendly_expr := expr |}
  else
    {| LicenseExprInfo.valid := true; LicenseExprInfo.is_id_only := true;
       LicenseExprInfo.or_present := false;
       LicenseExprInfo.licenses := [expr];
       LicenseExprInfo.friendly_expr := expr |}.

Definition sample_is_spdx_license (id : string) : bool :=
  bool_decide (str_upper id ∈ sample_registry).

Definition sample_get_license (id : string) : option License.t :=
  if sample_is_spdx_license id then
    Some {| License.id := id; License.friendly_id := id;
            License.custom := false |}
  else None.

Definition sample_env : Env :=
  {| upper := str_upper;
     get_spdx_license_expr_info := sample_info;
     is_spdx_license := sample_is_spdx_license;
     get_license := sample_get_license;
     new_License := {| License.id := ""; License.friendly_id := "";
                       License.custom := true |} |}.

Definition sample_file (path : string) (licenses : list string)
    (package : string) : File.t :=
  {| File.file_path := path; File.licenses := licenses;
     File.detectors := ∅; File.package := package;
     File.license_expr := ""; File.spdx_id := "" |}.

Definition sample_package (id : string) (name version url : option string)
  : Package.t :=
  {| Package.id := id; Package.name := name; Package.version := version;
     Package.url := url; Package.browser_url := None;
     Package.external_refs := None; Package.spdx_id := None |}.

Definition sample_data (files : list File.t)
    (packages : list (string * Package.t))
    (relationships : option (list Relationship.t)) : Data.t :=
  {| Data.files := files; Data.packages := packages; Data.licenses := ∅;
     Data.licenses_sorted := []; Data.packages_sorted := [];
     Data.detectors := ∅; Data.relationships := relationships |}.

(** A data set to run [pre_process] on, and what it returns. *)
Definition sample_files : list File.t :=
  [sample_file "src/b.c" ["MIT"] "zephyr";
   sample_file "src/a.c" ["MIT OR BSD-3-Clause"; "GPL-2.0"] "zephyr";
   sample_file "README" [] "nrf"].

Definition sample_packages : list (string * Package.t) :=
  [("zephyr", sample_package "zephyr" None (Some "3.0")
                (Some "https://github.com/zephyrproject-rtos/zephyr.git"));
   ("nrf", sample_package "nrf" (Some "sdk-nrf") None None);
   ("empty", sample_package "empty" None None (Some "http://example.com"))].

Definition sample_input : Data.t :=
  sample_data sample_files sample_packages None.

Definition sample_output : Data.t :=
  Eval vm_compute in
    default sample_input (@pre_process sample_env sample_input).

(** The first file of [sample_output]: [README], which has no license. *)
Definition sample_readme : File.t :=
  Eval vm_compute in
    default (sample_file "" [] "") (Data.files sample_output !! 0).

(** Further data sets. *)

(** A data set with detectors. *)
Definition detected_input : Data.t :=
  {| Data.files :=
       [{| File.file_path := "main.c"; File.licenses := ["MIT"];
           File.detectors := {["scancode"; "spdx-tag"]};
           File.package := ""; File.license_expr := ""; File.spdx_id := "" |}];
     Data.packages := []; Data.licenses := ∅; Data.licenses_sorted := [];
     Data.packages_sorted := []; Data.detectors := {["manual"]};
     Data.relationships := None |}.

Definition detected_output : Data.t :=
  Eval vm_compute in
    default detected_input (@pre_process sample_env detected_input).

(** Two packages that come with the same name. *)
Definition named_input : Data.t :=
  sample_data []
    [("a", sample_package "a" (Some "libfoo") (Some "1.2")
             (Some "https://example.com/libfoo"));
     ("b", sample_package "b" (Some "libfoo") None
             (Some "https://example.org/libfoo"))]
    None.

Definition named_output : Data.t :=
  Eval vm_compute in default named_input (@pre_process sample_env named_input).

(** ** Vocabulary of the statements

    Definitions used to state and prove the properties below; none of them
    is part of the embedded code. *)

(** The order in which [sorted_by key] arranges a list. *)
Definition key_le {A} (key : A → string) (x y : A) : Prop :=
  String.le (key x) (key y).

(** Two dictionaries with the same keys in the same order whose objects are
    related by [P]. *)
Definition objs_rel {V} (P : V → V → Prop) (d d' : list (string * V)) : Prop :=
  Forall2 (λ kv kv', kv'.1 = kv.1 ∧ P kv.2 kv'.2) d d'.

(** [p'] is [p] with a new [spdx_id] and [external_refs]. *)
Definition id_assigned (p p' : Package.t) : Prop :=
  ∃ s r, p' = Package.set_external_refs r (Package.set_spdx_id s p).

(** The part of lines 109-128 that touches one package only. *)
Definition normalized (package : Package.t) : Package.t :=
  let package := default_version package in
  match Package.url package with
  | None => package
  | Some url =>
      default_browser_url url (fallback_name url (derive_name url package))
  end.

(** [name] after [n] renamings, each appending ['-' + version]. *)
Definition suffixed (n : nat) (version name : string) : string :=
  Nat.iter n (λ s, s +:+ "-" +:+ version) name.

Definition add_suffixes (n : nat) (package : Package.t) : Package.t :=
  match Package.name package, Package.version package with
  | Some name, Some version =>
      Package.set_name (Some (suffixed n version name)) package
  | _, _ => package
  end.

(** What the two package passes leave of an input package. *)
Definition package_final (p p' : Package.t) : Prop :=
  ∃ s r n,
    p' = add_suffixes n
           (normalized (Package.set_external_refs r (Package.set_spdx_id s p))).

(** Invariant of the loop over [data.packages.values()] before it visits
    position [i]: the keys are those of the initial list [packages0], the
    packages visited so far are normalised and suffixed, the others are
    untouched, and every entry of [package_name_map] points to a visited
    package that bears the name of the entry. *)
Definition names_inv (i : nat) (packages0 packages : list (string * Package.t))
    (package_name_map : gmap string nat) : Prop :=
  packages.*1 = packages0.*1
  ∧ (∀ j p0, get_obj packages0 j = Some p0 →
       ∃ p, get_obj packages j = Some p
            ∧ if decide (j < i) then ∃ n, p = add_suffixes n (normalized p0)
              else p = p0)
  ∧ (∀ name e, package_name_map !! name = Some e →
       e < i ∧ ∃ p, get_obj packages e = Some p
                    ∧ Package.name p = Some name
                    ∧ is_Some (Package.version p)).

(** [package.spdx_id] of the package stored under [k], when it is set and
    not empty. *)
Definition package_spdx_id (packages : list (string * Package.t)) (k : string)
  : option string :=
  p ← dict_get packages k;
  s ← Package.spdx_id p;
  if Py.truthy (Some s) then Some s else None.

(** The edges that the loops of lines 145-152 and 153-162 append. *)
Definition describe_one (packages : list (string * Package.t))
    (packages_with_files : gset string) (k : string) : list Relationship.t :=
  match package_spdx_id packages k with
  | Some s => if bool_decide (k ∈ packages_with_files) then [describes s] else []
  | None => []
  end.

Definition describe_list (packages : list (string * Package.t))
    (packages_with_files : gset string) (ids : list string)
  : list Relationship.t :=
  ids ≫= describe_one packages packages_with_files.

Definition contains_one (packages : list (string * Package.t))
    (group : string * list string) : list Relationship.t :=
  match package_spdx_id packages group.1 with
  | Some s => contains s <$> group.2
  | None => []
  end.

Definition contains_list (packages : list (string * Package.t))
    (package_to_files : list (string * list string)) : list Relationship.t :=
  package_to_files ≫= contains_one packages.

(** The identifiers of the files of package [k], in file order. *)
Definition owned (files : list File.t) (k : string) : list string :=
  File.spdx_id <$> List.filter (λ f, bool_decide (File.package f = k)) files.


Section Vocabulary.
Context {env : Env}.

(** The normalised tokens of a file. *)
Definition tokens (raw : list string) : list string :=
  upper <$> licenses_or_sentinel raw.

(** Whether [register_file] stores a [LicenseExpr] under the expression
    (line 46). *)
Definition needs_expr (license_expr : string) : bool :=
  let info := get_spdx_license_expr_info license_expr in
  negb (LicenseExprInfo.valid info) || negb (LicenseExprInfo.is_id_only info).


(** Assumptions on the resolver, after its description in the
    specification ([is_id_only]: the string is a single bare identifier;
    [licenses]: the identifiers it decomposes into): a bare identifier is
    among its own identifiers, and an identifier decomposes into nothing but
    itself. *)
Definition id_only_self : Prop :=
  ∀ expr, LicenseExprInfo.valid (get_spdx_license_expr_info expr) = true →
          LicenseExprInfo.is_id_only (get_spdx_license_expr_info expr) = true →
          expr ∈ LicenseExprInfo.licenses (get_spdx_license_expr_info expr).




(** The files after the license pass and the identifier pass. *)
Definition files_out (d : Data.t) : list File.t :=
  assign_file_ids 1 (set_license_exprs (sort_files (Data.files d))).

(** [data.packages_sorted] *)
Definition ids_of (d : Data.t) : list string :=
  Py.sorted (dict_keys (Data.packages d)).

End Vocabulary.

(** Vocabulary of the further properties. *)

(** What [pre_process] never touches in a file. *)
Definition file_input (file : File.t)
  : string * list string * gset string * string :=
  (File.file_path file, File.licenses file, File.detectors file,
   File.package file).

(** Lines 98-101 on one package: the identifier of rank [n] and the default
    for [external_refs]. *)
Definition assigned (n : nat) (package : Package.t) : Package.t :=
  Package.set_external_refs (Some (default [] (Package.external_refs package)))
    (Package.set_spdx_id (Some (package_ref n)) package).

(** What the loop keeps for the packages without url: they never enter
    [package_name_map], so no later collision reaches them. *)
Definition no_url_inv (i : nat) (packages0 packages : list (string * Package.t))
    (package_name_map : gmap string nat) : Prop :=
  (∀ name e, package_name_map !! name = Some e →
     ∃ p, get_obj packages e = Some p ∧ is_Some (Package.url p))
  ∧ (∀ j p0, j < i → get_obj packages0 j = Some p0 → Package.url p0 = None →
       get_obj packages j = Some (default_version p0)).

(** [a] is sorted before [b]: both have a sort key, and the key of [a] is
    the smaller one. *)
Definition lic_before {env : Env} (licenses : gmap string (option LicenseEntry))
    (a b : string) : Prop :=
  ∃ ka kb, lic_reorder licenses a = Some ka ∧ lic_reorder licenses b = Some kb
           ∧ String.le ka kb ∧ ka ≠ kb.

(** The entry that lines 61-71 store for an identifier: the registry's
    answer for an SPDX identifier, else the entry [data.licenses] had, else
    the registry's answer or a new [License] named after the identifier. *)
Definition license_entry {env : Env} (old : gmap string (option LicenseEntry))
    (id : string) : option LicenseEntry :=
  if is_spdx_license id then IsLicense <$> get_license id
  else match old !! id with
       | Some entry => entry
       | None =>
           Some (IsLicense (match get_license id with
                            | Some lic => lic
                            | None => License.set_ids id new_License
                            end))
       end.

(** Where an entry of the catalog comes from. *)
Definition entry_origin {env : Env} (old : gmap string (option LicenseEntry))
    (files : list File.t) (k : string) (v : option LicenseEntry) : Prop :=
  (v = Some (IsExpr (make_expr k (get_spdx_license_expr_info k)))
   ∧ needs_expr k = true
   ∧ ∃ file, file ∈ files ∧ File.license_expr file = k)
  ∨ (v = license_entry old k
     ∧ ∃ file, file ∈ files
         ∧ k ∈ LicenseExprInfo.licenses
                 (get_spdx_license_expr_info (File.license_expr file))).

(** The names of the packages that have a url, in dict order: the names
    that the collision code of lines 120-126 compares. *)
Definition url_names (packages : list (string * Package.t))
  : list (option string) :=
  (λ kp, Package.name kp.2)
    <$> List.filter (λ kp, bool_decide (is_Some (Package.url kp.2))) packages.

(** The CONTAINS edges that start at the identifier [s]. *)
Definition is_contains_of (s : string) (r : Relationship.t) : bool :=
  bool_decide (Relationship.spdx_id r = s)
  && bool_decide (Relationship.relationship_type r = "CONTAINS").

(** ** Properties *)

(** *** Sorting *)

Section SortedFacts.
Context {A : Type} (key : A → string).

Lemma insert_by_Permutation x l : Py.insert_by key x l ≡ₚ x :: l.
Proof.
  induction l as [|y l IH]; simpl; [done|].
  case_bool_decide; [done|].
  rewrite IH. apply Permutation_swap.
Qed.

Lemma sorted_by_Permutation l : Py.sorted_by key l ≡ₚ l.
Proof.
  induction l as [|x l IH]; simpl; [done|].
  by rewrite insert_by_Permutation, IH.
Qed.

Lemma insert_by_HdRel z x l :
  key_le key z x → HdRel (key_le key) z l → HdRel (key_le key) z (Py.insert_by key x l).
Proof.
  intros Hzx Hz. destruct l as [|y l]; simpl.
  - by constructor.
  - case_bool_decide; constructor; [done|]. by inversion Hz.
Qed.

Lemma insert_by_Sorted x l :
  Sorted (key_le key) l → Sorted (key_le key) (Py.insert_by key x l).
Proof.
  induction 1 as [|y l Hl IH Hy]; simpl.
  - by repeat constructor.
  - case_bool_decide as Hxy.
    + constructor; [by constructor|]. by constructor.
    + constructor; [done|]. apply insert_by_HdRel; [|done].
      unfold key_le. destruct (total String.le (key x) (key y)); done.
Qed.

Lemma sorted_by_Sorted l : Sorted (key_le key) (Py.sorted_by key l).
Proof.
  induction l as [|x l IH]; simpl; [constructor|].
  by apply insert_by_Sorted.
Qed.

Lemma sorted_by_fixed l : Sorted (key_le key) l → Py.sorted_by key l = l.
Proof.
  induction 1 as [|x l Hl IH Hx]; simpl; [done|].
  rewrite IH. destruct Hx as [|y l Hxy]; simpl; [done|].
  by rewrite bool_decide_eq_true_2.
Qed.

Lemma sorted_by_idemp l :
  Py.sorted_by key (Py.sorted_by key l) = Py.sorted_by key l.
Proof. apply sorted_by_fixed, sorted_by_Sorted. Qed.

Lemma elem_of_sorted_by x l : x ∈ Py.sorted_by key l ↔ x ∈ l.
Proof. by rewrite sorted_by_Permutation. Qed.

Lemma length_sorted_by l : length (Py.sorted_by key l) = length l.
Proof. by rewrite sorted_by_Permutation. Qed.

End SortedFacts.

Lemma key_le_fmap {A B} (f : A → B) (key : B → string) (key' : A → string) l :
  (∀ x, key (f x) = key' x) →
  Sorted (key_le key') l → Sorted (key_le key) (f <$> l).
Proof.
  intros Hk. induction 1 as [|x l Hl IH Hx]; simpl; constructor; [done|].
  destruct Hx; simpl; constructor. unfold key_le in *. by rewrite !Hk.
Qed.

(** *** The license-expression pass *)

Section LicenseExprFacts.
Context {env : Env}.

Lemma classify_or items license x :
  x ∈ or_expr_items (classify items license) ↔
  x ∈ or_expr_items items
  ∨ (x = upper license ∧ is_or_item (get_spdx_license_expr_info x) = true).
Proof.
  unfold classify.
  destruct (is_or_item (get_spdx_license_expr_info (upper license))) eqn:E;
    simpl; rewrite ?elem_of_union, ?elem_of_singleton;
    intuition (subst; auto; congruence).
Qed.

Lemma classify_simple items license x :
  x ∈ simple_expr_items (classify items license) ↔
  x ∈ simple_expr_items items
  ∨ (x = upper license ∧ is_or_item (get_spdx_license_expr_info x) = false).
Proof.
  unfold classify.
  destruct (is_or_item (get_spdx_license_expr_info (upper license))) eqn:E;
    simpl; rewrite ?elem_of_union, ?elem_of_singleton;
    intuition (subst; auto; congruence).
Qed.

Lemma classify_repeated items license x :
  x ∈ repeated_expr_items (classify items license) ↔
  x ∈ repeated_expr_items items
  ∨ (is_compound (get_spdx_license_expr_info (upper license)) = true
     ∧ x ∈ LicenseExprInfo.licenses (get_spdx_license_expr_info (upper license))).
Proof.
  unfold classify.
  destruct (is_compound (get_spdx_license_expr_info (upper license))) eqn:E;
    destruct (is_or_item _); simpl;
    rewrite ?elem_of_union, ?elem_of_list_to_set; intuition congruence.
Qed.

Lemma foldl_classify_or l items x :
  x ∈ or_expr_items (foldl classify items l) ↔
  x ∈ or_expr_items items
  ∨ (x ∈ upper <$> l ∧ is_or_item (get_spdx_license_expr_info x) = true).
Proof.
  revert items. induction l as [|t l IH]; intros items; simpl.
  - rewrite elem_of_nil. naive_solver.
  - rewrite IH, classify_or, elem_of_cons. naive_solver.
Qed.

Lemma foldl_classify_simple l items x :
  x ∈ simple_expr_items (foldl classify items l) ↔
  x ∈ simple_expr_items items
  ∨ (x ∈ upper <$> l ∧ is_or_item (get_spdx_license_expr_info x) = false).
Proof.
  revert items. induction l as [|t l IH]; intros items; simpl.
  - rewrite elem_of_nil. naive_solver.
  - rewrite IH, classify_simple, elem_of_cons. naive_solver.
Qed.

Lemma foldl_classify_repeated l items x :
  x ∈ repeated_expr_items (foldl classify items l) ↔
  x ∈ repeated_expr_items items
  ∨ ∃ u, u ∈ upper <$> l
         ∧ is_compound (get_spdx_license_expr_info u) = true
         ∧ x ∈ LicenseExprInfo.licenses (get_spdx_license_expr_info u).
Proof.
  revert items. induction l as [|t l IH]; intros items; simpl.
  - setoid_rewrite elem_of_nil. naive_solver.
  - rewrite IH, classify_repeated. setoid_rewrite elem_of_cons. naive_solver.
Qed.

Lemma classify_all_or raw x :
  x ∈ or_expr_items (classify_all raw) ↔
  x ∈ tokens raw ∧ is_or_item (get_spdx_license_expr_info x) = true.
Proof.
  unfold classify_all, tokens. rewrite foldl_classify_or. simpl. set_solver.
Qed.

Lemma classify_all_simple raw x :
  x ∈ simple_expr_items (classify_all raw) ↔
  x ∈ tokens raw ∧ is_or_item (get_spdx_license_expr_info x) = false.
Proof.
  unfold classify_all, tokens. rewrite foldl_classify_simple. simpl. set_solver.
Qed.

Lemma classify_all_repeated raw x :
  x ∈ repeated_expr_items (classify_all raw) ↔
  ∃ u, u ∈ tokens raw
       ∧ is_compound (get_spdx_license_expr_info u) = true
       ∧ x ∈ LicenseExprInfo.licenses (get_spdx_license_expr_info u).
Proof.
  unfold classify_all, tokens. rewrite foldl_classify_repeated. simpl. set_solver.
Qed.

Lemma ExprItems_eq a b :
  simple_expr_items a = simple_expr_items b →
  or_expr_items a = or_expr_items b →
  repeated_expr_items a = repeated_expr_items b → a = b.
Proof. destruct a, b; simpl; congruence. Qed.

Lemma classify_all_tokens raw1 raw2 :
  (∀ x, x ∈ tokens raw1 ↔ x ∈ tokens raw2) →
  classify_all raw1 = classify_all raw2.
Proof.
  intros Heq. apply ExprItems_eq; apply set_eq; intros x.
  - rewrite !classify_all_simple. by rewrite Heq.
  - rewrite !classify_all_or. by rewrite Heq.
  - rewrite !classify_all_repeated. by setoid_rewrite Heq.
Qed.

Lemma build_license_expr_classify raw1 raw2 :
  classify_all raw1 = classify_all raw2 →
  build_license_expr raw1 = build_license_expr raw2.
Proof. unfold build_license_expr. by intros ->. Qed.

Lemma tokens_nonempty raw : raw ≠ [] → tokens raw = upper <$> raw.
Proof. unfold tokens, licenses_or_sentinel. by destruct raw. Qed.

Lemma build_license_expr_set raw1 raw2 :
  list_to_set (upper <$> raw1) =@{gset string} list_to_set (upper <$> raw2) →
  build_license_expr raw1 = build_license_expr raw2.
Proof.
  intros Heq. apply build_license_expr_classify, classify_all_tokens.
  destruct raw1 as [|t1 raw1], raw2 as [|t2 raw2]; [done|set_solver..|].
  rewrite !tokens_nonempty by done. intros x.
  by rewrite <-!(elem_of_list_to_set (C:=gset string)), Heq.
Qed.

Lemma build_license_expr_single X :
  is_compound (get_spdx_license_expr_info (upper X)) = false →
  build_license_expr [X] = upper X.
Proof.
  intros Hc. unfold build_license_expr, classify_all.
  change (licenses_or_sentinel [X]) with [X]. cbn [foldl]. unfold classify.
  rewrite Hc.
  destruct (is_or_item _);
    cbn [simple_expr_items or_expr_items repeated_expr_items].
  - assert ((∅ : gset string) ∖ ∅ = ∅) as -> by set_solver.
    assert ((∅ : gset string) ∪ {[upper X]} = {[upper X]}) as -> by set_solver.
    rewrite size_empty, size_singleton.
    rewrite !bool_decide_eq_false_2 by lia. cbn [orb].
    assert ((∅ : gset string) ∪ {[upper X]} = {[upper X]}) as -> by set_solver.
    by rewrite elements_singleton.
  - assert (((∅ : gset string) ∪ {[upper X]}) ∖ ∅ = {[upper X]}) as -> by set_solver.
    rewrite size_empty, size_singleton.
    rewrite bool_decide_eq_false_2, bool_decide_eq_true_2 by lia. cbn [orb].
    rewrite set_map_empty.
    assert ({[upper X]} ∪ (∅ : gset string) = {[upper X]}) as -> by set_solver.
    by rewrite elements_singleton.
Qed.

End LicenseExprFacts.

(** *** The license catalog *)

Section CatalogFacts.
Context {env : Env}.
Implicit Types (old used : gmap string (option LicenseEntry)).

Lemma register_id_dom old used id :
  dom (register_id old used id) = dom used ∪ {[id]}.
Proof.
  unfold register_id. case_bool_decide as Hin; [set_solver|].
  destruct (is_spdx_license id); [rewrite dom_insert_L; set_solver|].
  destruct (old !! id); rewrite dom_insert_L; set_solver.
Qed.

Lemma register_id_mono old used id : used ⊆ register_id old used id.
Proof.
  unfold register_id. case_bool_decide as Hin; [done|].
  apply not_elem_of_dom in Hin.
  destruct (is_spdx_license id); [by apply insert_subseteq|].
  destruct (old !! id); by apply insert_subseteq.
Qed.

Lemma foldl_register_id_dom old ids used :
  dom (foldl (register_id old) used ids) = dom used ∪ list_to_set ids.
Proof.
  revert used. induction ids as [|id ids IH]; intros used; simpl.
  - set_solver.
  - rewrite IH, register_id_dom. set_solver.
Qed.

Lemma foldl_register_id_mono old ids used :
  used ⊆ foldl (register_id old) used ids.
Proof.
  revert used. induction ids as [|id ids IH]; intros used; simpl; [done|].
  etrans; [apply register_id_mono|apply IH].
Qed.

Lemma register_file_dom old used file :
  File.license_expr file ∉ dom used →
  dom (register_file old used file) =
    dom used
    ∪ (if needs_expr (File.license_expr file)
       then {[File.license_expr file]} else ∅)
    ∪ list_to_set (LicenseExprInfo.licenses
                     (get_spdx_license_expr_info (File.license_expr file))).
Proof.
  intros Hin. unfold register_file, needs_expr.
  rewrite bool_decide_eq_false_2 by done.
  rewrite foldl_register_id_dom.
  destruct (_ || _); [rewrite dom_insert_L|]; set_solver.
Qed.

Lemma register_file_skip old used file :
  File.license_expr file ∈ dom used → register_file old used file = used.
Proof. intros Hin. unfold register_file. by rewrite bool_decide_eq_true_2. Qed.

Lemma register_file_mono old used file : used ⊆ register_file old used file.
Proof.
  unfold register_file. case_bool_decide as Hin; [done|].
  etrans; [|apply foldl_register_id_mono].
  destruct (_ || _); [|done].
  apply insert_subseteq. by apply not_elem_of_dom.
Qed.

Lemma foldl_register_file_mono old files used :
  used ⊆ foldl (register_file old) used files.
Proof.
  revert used. induction files as [|f files IH]; intros used; simpl; [done|].
  etrans; [apply register_file_mono|apply IH].
Qed.


Lemma register_file_expr_key old used file :
  id_only_self →
  File.license_expr file ∈ dom (register_file old used file).
Proof.
  intros Hself.
  destruct (decide (File.license_expr file ∈ dom used)) as [Hin|Hin].
  - by rewrite register_file_skip.
  - rewrite register_file_dom by done. unfold needs_expr.
    destruct (LicenseExprInfo.valid _) eqn:Hv; [|set_solver].
    destruct (LicenseExprInfo.is_id_only _) eqn:Hi; [|set_solver].
    apply elem_of_union_r, elem_of_list_to_set. by apply Hself.
Qed.

Lemma foldl_register_file_expr_key old files used file :
  id_only_self → file ∈ files →
  File.license_expr file ∈ dom (foldl (register_file old) used files).
Proof.
  intros Hself. revert used.
  induction files as [|f files IH]; intros used Hin; simpl.
  - by apply elem_of_nil in Hin.
  - apply elem_of_cons in Hin as [->|Hin]; [|by apply IH].
    eapply subseteq_dom; [apply foldl_register_file_mono|].
    by apply register_file_expr_key.
Qed.




End CatalogFacts.

(** *** Identifiers and dictionaries *)

Lemma str_of_nat_inj n m : Py.str_of_nat n = Py.str_of_nat m → n = m.
Proof.
  unfold Py.str_of_nat. intros Heq.
  apply Unsigned.to_uint_inj.
  apply (f_equal NilEmpty.uint_of_string) in Heq.
  rewrite !NilEmpty.usu in Heq. congruence.
Qed.

Global Instance package_ref_inj : Inj (=) (=) package_ref.
Proof.
  intros n m Heq. unfold package_ref in Heq.
  by apply (inj (String.app _)), str_of_nat_inj in Heq.
Qed.

Global Instance file_ref_inj : Inj (=) (=) file_ref.
Proof.
  intros n m Heq. unfold file_ref in Heq.
  by apply (inj (String.app _)), str_of_nat_inj in Heq.
Qed.

Lemma package_ref_truthy n : Py.truthy (Some (package_ref n)) = true.
Proof. done. Qed.

Section DictFacts.
Context {V : Type}.
Implicit Types (d : list (string * V)).


Lemma dict_get_is_Some d k : is_Some (dict_get d k) ↔ k ∈ dict_keys d.
Proof.
  unfold dict_keys. induction d as [|[k' v'] d IH]; simpl.
  - rewrite elem_of_nil. split; [by intros [? ?]|done].
  - rewrite elem_of_cons. case_decide as Hk; [subst; naive_solver|].
    rewrite IH. naive_solver.
Qed.

Lemma dict_get_None d k : dict_get d k = None ↔ k ∉ dict_keys d.
Proof. rewrite <-dict_get_is_Some, eq_None_not_Some. done. Qed.

Lemma dict_get_set d k k' v :
  dict_get (dict_set k v d) k' = if decide (k = k') then Some v else dict_get d k'.
Proof.
  induction d as [|[k0 v0] d IH]; simpl.
  - by case_decide.
  - destruct (decide (k0 = k)) as [->|Hk0]; simpl.
    + by case_decide.
    + rewrite IH. repeat case_decide; congruence.
Qed.

Lemma dict_keys_set_in d k v :
  k ∈ dict_keys d → dict_keys (dict_set k v d) = dict_keys d.
Proof.
  unfold dict_keys. induction d as [|[k0 v0] d IH]; simpl.
  - by intros ?%elem_of_nil.
  - intros Hin. case_decide as Hk; [done|]. simpl. f_equal.
    apply IH. apply elem_of_cons in Hin as [?|?]; [by subst|done].
Qed.

Lemma dict_keys_set_notin d k v :
  k ∉ dict_keys d → dict_keys (dict_set k v d) = dict_keys d ++ [k].
Proof.
  unfold dict_keys. induction d as [|[k0 v0] d IH]; simpl; [done|].
  intros Hin. apply not_elem_of_cons in Hin as [? ?].
  case_decide; [congruence|]. simpl. f_equal. by apply IH.
Qed.

Lemma dict_get_lookup d k i v :
  NoDup (dict_keys d) → d !! i = Some (k, v) → dict_get d k = Some v.
Proof.
  unfold dict_keys. revert i. induction d as [|[k0 v0] d IH]; intros i; simpl; [done|].
  intros [Hk0 Hnd]%NoDup_cons. destruct i as [|i]; simpl.
  - intros [= -> ->]. by case_decide.
  - intros Hi. case_decide as Hk; [|by eapply IH].
    subst. exfalso. apply Hk0.
    apply list_elem_of_fmap. exists (k, v). split; [done|].
    by eapply list_elem_of_lookup_2.
Qed.

(** [dict_set] on a present key changes one object in place. *)
Lemma dict_set_Forall2 (P : V → V → Prop) d k v v0 :
  (∀ x, P x x) → dict_get d k = Some v0 → P v0 v →
  Forall2 (λ kv kv', kv'.1 = kv.1 ∧ P kv.2 kv'.2) d (dict_set k v d).
Proof.
  intros Hrefl. induction d as [|[k0 v1] d IH]; simpl; [done|].
  case_decide as Hk.
  - intros [= ->] HP. constructor; [done|].
    apply Forall_Forall2_diag, Forall_forall. auto.
  - intros ??. constructor; [by auto|]. by apply IH.
Qed.

End DictFacts.

(** *** The package store *)

Section StoreFacts.
Implicit Types (packages : list (string * Package.t)).

Lemma get_obj_lt packages i :
  i < length packages → is_Some (get_obj packages i).
Proof.
  intros Hi. unfold get_obj. apply lookup_lt_is_Some_2 in Hi as [kv ->]. by eexists.
Qed.

Lemma get_obj_Some_lt packages i p :
  get_obj packages i = Some p → i < length packages.
Proof.
  unfold get_obj. intros Hp. apply fmap_Some in Hp as (kv & Hkv & _).
  by eapply lookup_lt_Some.
Qed.

Lemma get_set_obj_eq packages i p :
  i < length packages → get_obj (set_obj i p packages) i = Some p.
Proof.
  intros Hi. unfold get_obj, set_obj.
  apply lookup_lt_is_Some_2 in Hi as [kv Hkv].
  by rewrite list_lookup_alter_eq, Hkv.
Qed.

Lemma get_set_obj_ne packages i j p :
  i ≠ j → get_obj (set_obj i p packages) j = get_obj packages j.
Proof. intros Hij. unfold get_obj, set_obj. by rewrite list_lookup_alter_ne. Qed.

Lemma keys_set_obj packages i p : (set_obj i p packages).*1 = packages.*1.
Proof.
  unfold set_obj. apply list_eq. intros j. rewrite !list_lookup_fmap.
  destruct (decide (i = j)) as [->|Hij].
  - rewrite list_lookup_alter_eq. by destruct (packages !! j).
  - by rewrite list_lookup_alter_ne.
Qed.

Lemma length_set_obj packages i p :
  length (set_obj i p packages) = length packages.
Proof. unfold set_obj. apply length_alter. Qed.

End StoreFacts.

Section PackageFacts.
Implicit Types (p : Package.t).

Lemma set_name_id p : Package.set_name (Package.name p) p = p.
Proof. by destruct p. Qed.

Lemma add_suffixes_0 p : add_suffixes 0 p = p.
Proof.
  unfold add_suffixes. destruct (Package.name p) as [nm|] eqn:Hn; [|done].
  destruct (Package.version p); [|done]. simpl. by rewrite <-Hn, set_name_id.
Qed.

Lemma default_version_version p : is_Some (Package.version (default_version p)).
Proof. unfold default_version. destruct (Package.version p) eqn:Hv; simpl; eauto. Qed.

Lemma default_version_url p : Package.url (default_version p) = Package.url p.
Proof. unfold default_version. by destruct (Package.version p). Qed.

Lemma derive_name_version url p :
  Package.version (derive_name url p) = Package.version p.
Proof.
  unfold derive_name. destruct (Package.name p); [done|]. by destruct (Py.find _ _).
Qed.

Lemma fallback_name_version url p :
  Package.version (fallback_name url p) = Package.version p.
Proof. unfold fallback_name. by destruct (Package.name p). Qed.

Lemma fallback_name_name url p : is_Some (Package.name (fallback_name url p)).
Proof. unfold fallback_name. destruct (Package.name p) eqn:Hn; simpl; eauto. Qed.

Lemma default_browser_url_set_name url nm p :
  default_browser_url url (Package.set_name nm p)
  = Package.set_name nm (default_browser_url url p).
Proof.
  unfold default_browser_url. simpl. destruct (Package.browser_url p); [done|].
  by destruct (Py.startswith _ _).
Qed.

Lemma default_browser_url_name url p :
  Package.name (default_browser_url url p) = Package.name p.
Proof.
  unfold default_browser_url. destruct (Package.browser_url p); [done|].
  by destruct (Py.startswith _ _).
Qed.

Lemma default_browser_url_version url p :
  Package.version (default_browser_url url p) = Package.version p.
Proof.
  unfold default_browser_url. destruct (Package.browser_url p); [done|].
  by destruct (Py.startswith _ _).
Qed.

Lemma add_suffixes_version n p :
  Package.version (add_suffixes n p) = Package.version p.
Proof.
  unfold add_suffixes. destruct (Package.name p); [|done].
  by destruct (Package.version p) eqn:Hv.
Qed.

(** Appending ['-' + version] once more to a suffixed package. *)
Lemma add_suffixes_S n q name version :
  Package.name (add_suffixes n q) = Some name →
  Package.version (add_suffixes n q) = Some version →
  Package.set_name (Some (name +:+ "-" +:+ version)) (add_suffixes n q)
  = add_suffixes (S n) q.
Proof.
  unfold add_suffixes.
  destruct (Package.name q) as [nm|] eqn:Hn; [|by rewrite Hn].
  destruct (Package.version q) as [v|] eqn:Hv; simpl; [|by rewrite Hv].
  rewrite Hv. by intros [= <-] [= <-].
Qed.

End PackageFacts.

Lemma normalized_no_url p :
  Package.url (default_version p) = None → normalized p = default_version p.
Proof. unfold normalized. by intros ->. Qed.

Lemma normalized_url p url :
  Package.url (default_version p) = Some url →
  normalized p
  = default_browser_url url (fallback_name url (derive_name url (default_version p))).
Proof. unfold normalized. by intros ->. Qed.

Lemma name_step_inv i packages0 packages M :
  i < length packages0 →
  names_inv i packages0 packages M →
  ∃ packages' M', name_step (packages, M) i = Some (packages', M')
     ∧ names_inv (S i) packages0 packages' M'.
Proof.
  intros Hi (Hkeys & Hobjs & HM).
  destruct (get_obj_lt packages0 i Hi) as [p0 Hp0].
  destruct (Hobjs i p0 Hp0) as (p & Hp & Hpi).
  rewrite decide_False in Hpi by lia. subst p.
  assert (Hlen : i < length packages) by (by eapply get_obj_Some_lt).
  unfold name_step. rewrite Hp. cbn [mbind option_bind].
  destruct (Package.url (default_version p0)) as [u|] eqn:Hu.
  2:{ eexists _, _. split; [done|]. split; [|split].
      - by rewrite keys_set_obj.
      - intros j q0 Hq0. destruct (decide (j = i)) as [->|Hji].
        + assert (q0 = p0) as -> by congruence.
          rewrite get_set_obj_eq by done. eexists; split; [done|].
          rewrite decide_True by lia. exists 0.
          by rewrite add_suffixes_0, normalized_no_url.
        + rewrite get_set_obj_ne by done.
          destruct (Hobjs j q0 Hq0) as (q & Hq & Hqi). exists q. split; [done|].
          repeat case_decide; try done; lia.
      - intros nm e Hnm. destruct (HM nm e Hnm) as (He & q & Hq & Hqn & Hqv).
        split; [lia|]. exists q. rewrite get_set_obj_ne by lia. done. }
  set (pb := fallback_name u (derive_name u (default_version p0))).
  destruct (fallback_name_name u (derive_name u (default_version p0))) as [nm Hnm].
  fold pb in Hnm. rewrite Hnm. cbn [mbind option_bind].
  assert (Hv : is_Some (Package.version pb)).
  { unfold pb. rewrite fallback_name_version, derive_name_version.
    apply default_version_version. }
  destruct Hv as [v Hv].
  assert (Hnorm : normalized p0 = default_browser_url u pb)
    by (by apply normalized_url).
  destruct (M !! nm) as [e|] eqn:HMnm.
  - (* the name is taken: both packages are renamed *)
    destruct (HM nm e HMnm) as (He & pe & Hpe & Hpen & [ve Hpev]).
    assert (Hei : e ≠ i) by lia.
    unfold rename_both.
    rewrite get_set_obj_eq by done. cbn [mbind option_bind].
    rewrite Hv. cbn [mbind option_bind].
    rewrite !get_set_obj_ne, Hpe by done. cbn [mbind option_bind].
    rewrite Hpen, Hpev. cbn [mbind option_bind].
    rewrite get_set_obj_ne by done.
    rewrite get_set_obj_eq by (by rewrite length_set_obj).
    cbn [mbind option_bind Package.name Package.set_name].
    eexists _, _. split; [done|]. split; [|split].
    + by rewrite !keys_set_obj.
    + intros j q0 Hq0. destruct (decide (j = i)) as [->|Hji].
      * assert (q0 = p0) as -> by congruence.
        rewrite get_set_obj_eq by (by rewrite !length_set_obj).
        eexists; split; [done|]. rewrite decide_True by lia. exists 1.
        rewrite Hnorm, default_browser_url_set_name.
        unfold add_suffixes.
        by rewrite default_browser_url_name, default_browser_url_version, Hnm, Hv.
      * rewrite get_set_obj_ne by done.
        destruct (Hobjs j q0 Hq0) as (q & Hq & Hqi).
        destruct (decide (j = e)) as [->|Hje].
        -- rewrite get_set_obj_eq by (rewrite !length_set_obj; lia).
           eexists; split; [done|]. rewrite decide_True by lia.
           rewrite decide_True in Hqi by lia. destruct Hqi as [n ->].
           assert (pe = add_suffixes n (normalized q0)) as -> by congruence.
           exists (S n). by apply add_suffixes_S.
        -- rewrite !get_set_obj_ne by done. exists q. split; [done|].
           repeat case_decide; try done; lia.
    + intros k x. rewrite lookup_insert. case_decide as Hk1.
      { intros [= <-]. split; [lia|]. eexists. split; [|split].
        - by rewrite get_set_obj_eq by (by rewrite !length_set_obj).
        - rewrite default_browser_url_name. simpl. by rewrite Hk1.
        - rewrite default_browser_url_version. simpl. eauto. }
      rewrite lookup_insert. case_decide as Hk2.
      { intros [= <-]. split; [lia|]. eexists. split; [|split].
        - rewrite get_set_obj_ne by done.
          by rewrite get_set_obj_eq by (rewrite !length_set_obj; lia).
        - simpl. by rewrite Hk2.
        - simpl. eauto. }
      rewrite lookup_delete. case_decide as Hk3; [done|].
      intros Hkx. destruct (HM k x Hkx) as (Hx & q & Hq & Hqn & Hqv).
      split; [lia|]. exists q. split; [|done].
      assert (x ≠ e) by (intros ->; congruence).
      by rewrite !get_set_obj_ne by lia.
  - (* the name is free *)
    cbn [mbind option_bind].
    rewrite get_set_obj_eq by done. cbn [mbind option_bind].
    rewrite Hnm. cbn [mbind option_bind].
    eexists _, _. split; [done|]. split; [|split].
    + by rewrite !keys_set_obj.
    + intros j q0 Hq0. destruct (decide (j = i)) as [->|Hji].
      * assert (q0 = p0) as -> by congruence.
        rewrite get_set_obj_eq by (by rewrite !length_set_obj).
        eexists; split; [done|]. rewrite decide_True by lia. exists 0.
        by rewrite add_suffixes_0.
      * rewrite !get_set_obj_ne by done.
        destruct (Hobjs j q0 Hq0) as (q & Hq & Hqi). exists q. split; [done|].
        repeat case_decide; try done; lia.
    + intros k x. rewrite lookup_insert. case_decide as Hk1.
      { intros [= <-]. split; [lia|]. eexists. split; [|split].
        - by rewrite get_set_obj_eq by (by rewrite !length_set_obj).
        - by rewrite default_browser_url_name, <-Hk1.
        - rewrite default_browser_url_version. eauto. }
      intros Hkx. destruct (HM k x Hkx) as (Hx & q & Hq & Hqn & Hqv).
      split; [lia|]. exists q. split; [|done].
      by rewrite !get_set_obj_ne by lia.
Qed.

Lemma foldlM_name_step n : ∀ i packages0 packages M,
  i + n = length packages0 →
  names_inv i packages0 packages M →
  ∃ packages' M',
    foldlM name_step (packages, M) (seq i n) = Some (packages', M')
    ∧ names_inv (length packages0) packages0 packages' M'.
Proof.
  induction n as [|n IH]; intros i packages0 packages M Hn Hinv;
    cbn [seq foldlM].
  - eexists _, _. split; [done|]. by replace (length packages0) with i by lia.
  - destruct (name_step_inv i packages0 packages M) as (pk1 & M1 & -> & Hinv1);
      [lia|done|].
    cbn [mbind option_bind]. apply IH; [lia|done].
Qed.

Lemma names_inv_init packages : names_inv 0 packages packages ∅.
Proof.
  split; [done|]. split.
  - intros j p0 Hp0. exists p0. split; [done|]. by rewrite decide_False by lia.
  - intros nm e. by rewrite lookup_empty.
Qed.

Lemma friendly_packages_inv packages :
  ∃ packages' M,
    friendly_packages packages = Some (packages', M)
    ∧ names_inv (length packages) packages packages' M.
Proof. apply foldlM_name_step; [done|apply names_inv_init]. Qed.

Lemma objs_rel_keys {V} (P : V → V → Prop) d d' :
  objs_rel P d d' → dict_keys d' = dict_keys d.
Proof.
  unfold dict_keys. induction 1 as [|[??] [??] ?? [? ?]]; simpl in *; [done|].
  by f_equal.
Qed.

Lemma objs_rel_get {V} (P : V → V → Prop) d d' k v :
  objs_rel P d d' → dict_get d k = Some v →
  ∃ v', dict_get d' k = Some v' ∧ P v v'.
Proof.
  induction 1 as [|[k0 v0] [k1 v1] d d' [Hk HP] Hd IH]; simpl in *; [done|].
  subst k1. case_decide; [intros [= ->]; eauto|done].
Qed.

Lemma objs_rel_get_inv {V} (P : V → V → Prop) d d' k v' :
  objs_rel P d d' → dict_get d' k = Some v' →
  ∃ v, dict_get d k = Some v ∧ P v v'.
Proof.
  induction 1 as [|[k0 v0] [k1 v1] d d' [Hk HP] Hd IH]; simpl in *; [done|].
  subst k1. case_decide; [intros [= ->]; eauto|done].
Qed.

Lemma objs_rel_lookup {V} (P : V → V → Prop) d d' i k v :
  objs_rel P d d' → d !! i = Some (k, v) →
  ∃ v', d' !! i = Some (k, v') ∧ P v v'.
Proof.
  intros Hrel Hi. destruct (Forall2_lookup_l _ _ _ _ _ Hrel Hi) as ([k' v'] & Hi' & Hk & HP).
  simpl in *. subst. eauto.
Qed.

Lemma objs_rel_trans {V} (P Q R : V → V → Prop) d1 d2 d3 :
  (∀ x y z, P x y → Q y z → R x z) →
  objs_rel P d1 d2 → objs_rel Q d2 d3 → objs_rel R d1 d3.
Proof.
  intros HPQ H1. revert d3. induction H1 as [|[??] [??] ?? [? ?] ? IH];
    intros d3 H3; inversion H3 as [|? [??] ?? [? ?]]; simplify_eq/=;
    constructor; [|by apply IH].
  split; [done|]. eauto.
Qed.

Lemma names_inv_objs_rel packages packages' M :
  names_inv (length packages) packages packages' M →
  objs_rel (λ p p', ∃ n, p' = add_suffixes n (normalized p)) packages packages'.
Proof.
  intros (Hkeys & Hobjs & _). apply Forall2_same_length_lookup. split.
  - by rewrite <-(length_fmap fst packages), <-Hkeys, length_fmap.
  - intros i [k p] [k' p'] Hi Hi'. simpl.
    assert (get_obj packages i = Some p) as Hp by (unfold get_obj; by rewrite Hi).
    destruct (Hobjs i p Hp) as (q & Hq & Hqi).
    rewrite decide_True in Hqi by (by eapply lookup_lt_Some).
    unfold get_obj in Hq. rewrite Hi' in Hq. simpl in Hq. injection Hq as ->.
    split; [|done].
    assert (packages'.*1 !! i = packages.*1 !! i) as Hk by (by rewrite Hkeys).
    rewrite !list_lookup_fmap, Hi, Hi' in Hk. simpl in Hk. congruence.
Qed.

Lemma friendly_packages_spec packages :
  ∃ packages' M,
    friendly_packages packages = Some (packages', M)
    ∧ objs_rel (λ p p', ∃ n, p' = add_suffixes n (normalized p))
        packages packages'
    ∧ (∀ name e, M !! name = Some e →
         ∃ p, get_obj packages' e = Some p ∧ Package.name p = Some name).
Proof.
  destruct (friendly_packages_inv packages) as (pk' & M & Hf & Hinv).
  exists pk', M. split; [done|]. split; [by eapply names_inv_objs_rel|].
  intros nm e Hnm. destruct Hinv as (_ & _ & HM).
  destruct (HM nm e Hnm) as (_ & p & ? & ? & _). eauto.
Qed.

(** *** The identifier pass *)

Lemma id_assigned_refl p : id_assigned p p.
Proof. exists (Package.spdx_id p), (Package.external_refs p). by destruct p. Qed.

Lemma id_assigned_trans p1 p2 p3 :
  id_assigned p1 p2 → id_assigned p2 p3 → id_assigned p1 p3.
Proof. intros (s1 & r1 & ->) (s2 & r2 & ->). by exists s2, r2. Qed.

Lemma assign_package_id_spec c packages k :
  k ∈ dict_keys packages →
  ∃ packages',
    assign_package_id (c, packages) k = Some (S c, packages')
    ∧ objs_rel id_assigned packages packages'
    ∧ (∃ p', dict_get packages' k = Some p'
             ∧ Package.spdx_id p' = Some (package_ref c))
    ∧ (∀ k', k' ≠ k → dict_get packages' k' = dict_get packages k').
Proof.
  intros Hk. apply dict_get_is_Some in Hk as [p Hp].
  unfold assign_package_id. rewrite Hp. cbn [mbind option_bind].
  eexists. split; [done|]. split; [|split].
  - eapply dict_set_Forall2; [apply id_assigned_refl|done|].
    destruct (Package.external_refs _) eqn:Hr; simpl in Hr.
    + exists (Some (package_ref c)), (Package.external_refs p). by destruct p.
    + by eexists _, _.
  - rewrite dict_get_set, decide_True by done. eexists. split; [done|].
    by destruct (Package.external_refs _).
  - intros k' Hk'. by rewrite dict_get_set, decide_False.
Qed.

Lemma foldlM_assign_package_id ids : ∀ c packages,
  (∀ k, k ∈ ids → k ∈ dict_keys packages) →
  ∃ packages',
    foldlM assign_package_id (c, packages) ids
      = Some (c + length ids, packages')
    ∧ objs_rel id_assigned packages packages'
    ∧ (∀ k, k ∈ ids →
         ∃ p' j, dict_get packages' k = Some p'
                 ∧ Package.spdx_id p' = Some (package_ref (c + j))
                 ∧ ids !! j = Some k)
    ∧ (∀ k, k ∉ ids → dict_get packages' k = dict_get packages k).
Proof.
  induction ids as [|k0 ids IH]; intros c packages Hin; cbn [foldlM].
  - exists packages. split; [by rewrite Nat.add_0_r|]. split; [|split].
    + apply Forall_Forall2_diag, Forall_forall. intros ??.
      split; [done|apply id_assigned_refl].
    + by intros k ?%elem_of_nil.
    + done.
  - destruct (assign_package_id_spec c packages k0) as (pk1 & -> & Hrel1 & Hk0 & Hoth);
      [apply Hin, list_elem_of_here|].
    cbn [mbind option_bind].
    destruct (IH (S c) pk1) as (pk' & -> & Hrel & Hids & Hrest).
    { intros k Hk. rewrite (objs_rel_keys _ _ _ Hrel1).
      by apply Hin, list_elem_of_further. }
    exists pk'. split; [f_equal; f_equal; simpl; lia|]. split; [|split].
    + eapply objs_rel_trans; [|done..]. apply id_assigned_trans.
    + intros k Hk. destruct (decide (k ∈ ids)) as [Hkin|Hkin].
      * destruct (Hids k Hkin) as (p' & j & ? & ? & ?).
        exists p', (S j). by replace (c + S j) with (S c + j) by lia.
      * apply elem_of_cons in Hk as [->|?]; [|done].
        destruct Hk0 as (p' & ? & ?). exists p', 0.
        by rewrite Hrest, Nat.add_0_r.
    + intros k Hk. apply not_elem_of_cons in Hk as [? ?].
      rewrite Hrest by done. by apply Hoth.
Qed.

(** *** The relationship pass *)

Section RelationshipFacts.
Implicit Types (packages : list (string * Package.t)) (rels : list Relationship.t).

Lemma describe_step_spec packages pwf rels k :
  k ∈ dict_keys packages →
  describe_step packages pwf rels k
  = Some (rels ++ describe_one packages pwf k).
Proof.
  intros [p Hp]%dict_get_is_Some.
  unfold describe_step, describe_one, package_spdx_id.
  rewrite Hp. cbn [mbind option_bind].
  destruct (Package.spdx_id p) as [s|]; cbn [mbind option_bind];
    [|by rewrite app_nil_r].
  destruct (Py.truthy (Some s)); cbn [andb]; [|by rewrite app_nil_r].
  case_bool_decide; [done|by rewrite app_nil_r].
Qed.

Lemma foldlM_describe_step packages pwf ids : ∀ rels,
  (∀ k, k ∈ ids → k ∈ dict_keys packages) →
  foldlM (describe_step packages pwf) rels ids
  = Some (rels ++ describe_list packages pwf ids).
Proof.
  unfold describe_list.
  induction ids as [|k ids IH]; intros rels Hin; cbn [foldlM].
  - by rewrite app_nil_r.
  - rewrite describe_step_spec by apply Hin, list_elem_of_here.
    cbn [mbind option_bind].
    rewrite IH by (intros; by apply Hin, list_elem_of_further).
    by rewrite bind_cons, <-app_assoc.
Qed.

Lemma contains_step_spec packages rels group :
  contains_step packages rels group = rels ++ contains_one packages group.
Proof.
  destruct group as [k fids]. unfold contains_step, contains_one, package_spdx_id.
  cbn [fst snd].
  destruct (dict_get packages k) as [p|]; cbn [mbind option_bind];
    [|by rewrite app_nil_r].
  destruct (Package.spdx_id p) as [s|]; cbn [mbind option_bind];
    [|by rewrite app_nil_r].
  destruct (Py.truthy (Some s)); cbn [negb]; [done|by rewrite app_nil_r].
Qed.

Lemma foldl_contains_step packages groups : ∀ rels,
  foldl (contains_step packages) rels groups
  = rels ++ contains_list packages groups.
Proof.
  unfold contains_list.
  induction groups as [|g groups IH]; intros rels; cbn [foldl].
  - by rewrite app_nil_r.
  - by rewrite IH, contains_step_spec, bind_cons, <-app_assoc.
Qed.

Lemma derive_relationships_spec relationships packages ids files :
  (∀ k, k ∈ ids → k ∈ dict_keys packages) →
  derive_relationships relationships packages ids files
  = Some (base_relationships relationships
          ++ describe_list packages
               (list_to_set (dict_keys (group_files files))) ids
          ++ contains_list packages (group_files files)).
Proof.
  intros Hin. unfold derive_relationships.
  rewrite foldlM_describe_step by done. cbn [mbind option_bind].
  by rewrite foldl_contains_step, <-app_assoc.
Qed.

Lemma dict_get_setdefault_append g file k :
  dict_get (setdefault_append g file) k
  = if decide (File.package file = k)
    then Some (default [] (dict_get g k) ++ [File.spdx_id file])
    else dict_get g k.
Proof.
  unfold setdefault_append. rewrite dict_get_set.
  case_decide; [by subst|done].
Qed.

Lemma dict_get_foldl_setdefault_append files : ∀ g k,
  dict_get (foldl setdefault_append g files) k
  = match dict_get g k, owned files k with
    | None, [] => None
    | o, l => Some (default [] o ++ l)
    end.
Proof.
  unfold owned.
  induction files as [|f files IH]; intros g k; cbn [foldl List.filter fmap list_fmap].
  - destruct (dict_get g k); [by rewrite app_nil_r|done].
  - rewrite IH, dict_get_setdefault_append.
    case_bool_decide as Hk.
    + rewrite decide_True by done.
      destruct (dict_get g k); simpl; by rewrite <-?app_assoc.
    + by rewrite decide_False by done.
Qed.

Lemma dict_get_group_files files k :
  dict_get (group_files files) k
  = match owned files k with [] => None | l => Some l end.
Proof. unfold group_files. by rewrite dict_get_foldl_setdefault_append. Qed.




Lemma dict_set_NoDup {V} k (v : V) d :
  NoDup (dict_keys d) → NoDup (dict_keys (dict_set k v d)).
Proof.
  intros Hnd. destruct (decide (k ∈ dict_keys d)) as [Hk|Hk].
  - by rewrite dict_keys_set_in.
  - rewrite dict_keys_set_notin by done. apply NoDup_app. split; [done|].
    split; [|apply NoDup_singleton]. intros x Hx ->%list_elem_of_singleton. done.
Qed.

Lemma group_files_NoDup files : NoDup (dict_keys (group_files files)).
Proof.
  unfold group_files. assert (NoDup (dict_keys ([] : list (string * list string)))) as Hnd
    by constructor.
  revert Hnd. generalize ([] : list (string * list string)).
  induction files as [|f files IH]; intros g Hnd; cbn [foldl]; [done|].
  apply IH. by apply dict_set_NoDup.
Qed.



End RelationshipFacts.

(** *** The package passes together *)

Lemma add_suffixes_spdx_id n p :
  Package.spdx_id (add_suffixes n p) = Package.spdx_id p.
Proof.
  unfold add_suffixes. destruct (Package.name p); [|done].
  by destruct (Package.version p).
Qed.

Lemma normalized_spdx_id p : Package.spdx_id (normalized p) = Package.spdx_id p.
Proof.
  unfold normalized, default_browser_url, fallback_name, derive_name, default_version.
  repeat (match goal with |- context [match ?x with _ => _ end] => destruct x eqn:? end;
          simpl in *; try done).
Qed.

Lemma package_final_spdx_id p p' s r n :
  p' = add_suffixes n
         (normalized (Package.set_external_refs r (Package.set_spdx_id s p))) →
  Package.spdx_id p' = s.
Proof. intros ->. by rewrite add_suffixes_spdx_id, normalized_spdx_id. Qed.

Section PreProcessFacts.
Context {env : Env}.

Lemma elem_of_sorted l x : x ∈ Py.sorted l ↔ x ∈ l.
Proof. apply elem_of_sorted_by. Qed.

Lemma package_passes d :
  ∃ packages1 packages2 M,
    foldlM assign_package_id (1, Data.packages d) (ids_of d)
      = Some (1 + length (ids_of d), packages1)
    ∧ friendly_packages packages1 = Some (packages2, M)
    ∧ objs_rel package_final (Data.packages d) packages2
    ∧ (∀ k, k ∈ dict_keys (Data.packages d) →
         ∃ p j, dict_get packages2 k = Some p
                ∧ Package.spdx_id p = Some (package_ref (1 + j))
                ∧ ids_of d !! j = Some k)
    ∧ (∀ name e, M !! name = Some e →
         ∃ p, get_obj packages2 e = Some p ∧ Package.name p = Some name).
Proof.
  destruct (foldlM_assign_package_id (ids_of d) 1 (Data.packages d))
    as (pk1 & Hids & Hrel1 & Hspdx & _).
  { intros k. unfold ids_of. by rewrite elem_of_sorted. }
  destruct (friendly_packages_spec pk1) as (pk2 & M & Hf & Hrel2 & HM).
  exists pk1, pk2, M. split; [done|]. split; [done|]. split; [|split; [|done]].
  - eapply objs_rel_trans; [|done..].
    intros p q p' (s & r & ->) (n & ->). by exists s, r, n.
  - intros k Hk. unfold ids_of in Hspdx.
    destruct (Hspdx k) as (p1 & j & Hp1 & Hs & Hj); [by apply elem_of_sorted|].
    destruct (objs_rel_get _ _ _ _ _ Hrel2 Hp1) as (p2 & Hp2 & n & ->).
    eexists _, j. split; [done|]. split; [|done].
    by rewrite add_suffixes_spdx_id, normalized_spdx_id.
Qed.

Lemma pre_process_unfold d :
  ∃ packages2 M,
    (∃ packages1,
        foldlM assign_package_id (1, Data.packages d) (ids_of d)
          = Some (1 + length (ids_of d), packages1)
        ∧ friendly_packages packages1 = Some (packages2, M))
    ∧ objs_rel package_final (Data.packages d) packages2
    ∧ (∀ k, k ∈ dict_keys (Data.packages d) →
         ∃ p j, dict_get packages2 k = Some p
                ∧ Package.spdx_id p = Some (package_ref (1 + j))
                ∧ ids_of d !! j = Some k)
    ∧ (∀ name e, M !! name = Some e →
         ∃ p, get_obj packages2 e = Some p ∧ Package.name p = Some name)
    ∧ pre_process d =
        (let files := set_license_exprs (sort_files (Data.files d)) in
         let licenses := collect_licenses (Data.licenses d) files in
         licenses_sorted ← sort_licenses licenses;
         Some {| Data.files := files_out d;
                 Data.packages := packages2;
                 Data.licenses := licenses;
                 Data.licenses_sorted := licenses_sorted;
                 Data.packages_sorted := ids_of d;
                 Data.detectors := collect_detectors (Data.detectors d) files;
                 Data.relationships :=
                   Some (base_relationships (Data.relationships d)
                         ++ describe_list packages2
                              (list_to_set (dict_keys (group_files (files_out d))))
                              (ids_of d)
                         ++ contains_list packages2 (group_files (files_out d))) |}).
Proof.
  destruct (package_passes d) as (pk1 & pk2 & M & Hids & Hf & Hrel & Hspdx & HM).
  exists pk2, M. split; [by eauto|]. split; [done|]. split; [done|]. split; [done|].
  unfold pre_process, files_out, ids_of in *.
  destruct (sort_licenses _) as [ls|]; cbn [mbind option_bind]; [|done].
  rewrite Hids. cbn [mbind option_bind]. rewrite Hf. cbn [mbind option_bind].
  rewrite derive_relationships_spec; [done|].
  intros k Hk. rewrite (objs_rel_keys _ _ _ Hrel).
  by apply elem_of_sorted.
Qed.

End PreProcessFacts.

(** *** File identifiers *)

Section FileFacts.
Context {env : Env}.

Lemma assign_file_ids_lookup files : ∀ c i,
  assign_file_ids c files !! i
  = File.set_spdx_id (file_ref (c + i)) <$> files !! i.
Proof.
  induction files as [|f files IH]; intros c i; [done|].
  destruct i as [|i]; cbn [assign_file_ids lookup list_lookup].
  - by rewrite Nat.add_0_r.
  - rewrite IH. by replace (S c + i) with (c + S i) by lia.
Qed.

Lemma length_assign_file_ids files c :
  length (assign_file_ids c files) = length files.
Proof. revert c. induction files; intros c; simpl; [done|]. by rewrite IHfiles. Qed.

Lemma elem_of_assign_file_ids files c f' :
  f' ∈ assign_file_ids c files →
  ∃ f i, f ∈ files ∧ f' = File.set_spdx_id (file_ref (c + i)) f.
Proof.
  intros [i Hi]%list_elem_of_lookup. rewrite assign_file_ids_lookup in Hi.
  apply fmap_Some in Hi as (f & Hf & ->). exists f, i.
  split; [by eapply list_elem_of_lookup_2|done].
Qed.

Lemma assign_file_ids_spdx_inj files c i j f g :
  assign_file_ids c files !! i = Some f →
  assign_file_ids c files !! j = Some g →
  File.spdx_id f = File.spdx_id g → i = j.
Proof.
  rewrite !assign_file_ids_lookup.
  intros (f0 & _ & ->)%fmap_Some (g0 & _ & ->)%fmap_Some. simpl.
  intros Heq%(inj file_ref). lia.
Qed.

Lemma assign_file_ids_NoDup files c :
  NoDup (File.spdx_id <$> assign_file_ids c files).
Proof.
  apply NoDup_alt. intros i j s. rewrite !list_lookup_fmap.
  intros (f & Hf & ->)%fmap_Some (g & Hg & Heq)%fmap_Some.
  by eapply assign_file_ids_spdx_inj.
Qed.

(** The identifier pass keeps every other attribute of a file. *)
Lemma assign_file_ids_fmap {B} (h : File.t → B) files c :
  (∀ s f, h (File.set_spdx_id s f) = h f) →
  h <$> assign_file_ids c files = h <$> files.
Proof.
  intros Hh. revert c. induction files as [|f files IH]; intros c; simpl; [done|].
  by rewrite Hh, IH.
Qed.

Lemma files_out_license_expr d f :
  f ∈ files_out d → File.license_expr f = build_license_expr (File.licenses f).
Proof.
  unfold files_out. intros (f1 & i & Hf1 & ->)%elem_of_assign_file_ids.
  unfold set_license_exprs in Hf1.
  apply list_elem_of_fmap in Hf1 as (f0 & -> & _). done.
Qed.

Lemma files_out_exprs d :
  File.license_expr <$> files_out d
  = File.license_expr <$> set_license_exprs (sort_files (Data.files d)).
Proof. unfold files_out. by apply assign_file_ids_fmap. Qed.

End FileFacts.

(** *** Sorting the catalog, and running the catalog pass again *)

Section LicenseSortFacts.
Context {env : Env}.
Implicit Types (old used : gmap string (option LicenseEntry)).







(** Running the catalog pass a second time, from its own result. *)
Lemma register_id_again old U used id :
  register_id old used id ⊆ U → register_id U used id = register_id old used id.
Proof.
  unfold register_id. case_bool_decide as Hin; [done|].
  destruct (is_spdx_license id); [done|]. intros Hsub.
  assert (∀ v, <[id:=v]> used ⊆ U → U !! id = Some v) as Hv.
  { intros v Hv. eapply lookup_weaken; [|done]. apply lookup_insert_eq. }
  destruct (old !! id) as [entry|]; by rewrite (Hv _ Hsub).
Qed.

Lemma foldl_register_id_again old U ids : ∀ used,
  foldl (register_id old) used ids ⊆ U →
  foldl (register_id U) used ids = foldl (register_id old) used ids.
Proof.
  induction ids as [|id ids IH]; intros used Hsub; cbn [foldl] in *; [done|].
  rewrite (register_id_again old); [by apply IH|].
  etrans; [apply foldl_register_id_mono|done].
Qed.

Lemma register_file_again old U used file :
  register_file old used file ⊆ U →
  register_file U used file = register_file old used file.
Proof.
  unfold register_file. case_bool_decide; [done|].
  apply foldl_register_id_again.
Qed.

Lemma foldl_register_file_again old U files : ∀ used,
  foldl (register_file old) used files ⊆ U →
  foldl (register_file U) used files = foldl (register_file old) used files.
Proof.
  induction files as [|f files IH]; intros used Hsub; cbn [foldl] in *; [done|].
  rewrite (register_file_again old); [by apply IH|].
  etrans; [apply foldl_register_file_mono|done].
Qed.

Lemma collect_licenses_again old files :
  collect_licenses (collect_licenses old files) files = collect_licenses old files.
Proof. unfold collect_licenses. by apply foldl_register_file_again. Qed.

(** The catalog reads only [license_expr]. *)
Lemma collect_licenses_ext old files1 files2 :
  File.license_expr <$> files1 = File.license_expr <$> files2 →
  collect_licenses old files1 = collect_licenses old files2.
Proof.
  unfold collect_licenses. generalize (∅ : gmap string (option LicenseEntry)).
  revert files2. induction files1 as [|f1 files1 IH]; intros [|f2 files2] used Heq;
    try done.
  injection Heq as Hf Heq. cbn [foldl].
  assert (register_file old used f1 = register_file old used f2) as ->
    by (unfold register_file; by rewrite Hf).
  by apply IH.
Qed.

End LicenseSortFacts.

(** *** The derived edges *)

Section RelationshipSets.
Implicit Types (packages : list (string * Package.t)) (rels : list Relationship.t).

Lemma should_keep_describes s : should_keep_relationship (describes s) = false.
Proof. done. Qed.

Lemma should_keep_contains s fid : should_keep_relationship (contains s fid) = false.
Proof.
  unfold should_keep_relationship. cbn [contains Relationship.relationship_type].
  rewrite (bool_decide_eq_false_2 ("CONTAINS" = "DESCRIBES")) by done.
  by rewrite andb_false_r.
Qed.

(** An edge that the filter drops is a [describes] or a [contains] edge. *)
Lemma not_kept_inv r :
  should_keep_relationship r = false →
  r = describes (Relationship.related_spdx_id r)
  ∨ r = contains (Relationship.spdx_id r) (Relationship.related_spdx_id r).
Proof.
  destruct r as [s t o]. unfold should_keep_relationship, describes, contains.
  cbn [Relationship.spdx_id Relationship.relationship_type Relationship.related_spdx_id].
  repeat case_bool_decide; cbn [andb]; intros ?; simplify_eq; auto.
Qed.


Global Instance describes_inj : Inj (=) (=) describes.
Proof. by intros s1 s2 [= ->]. Qed.

Global Instance contains_inj s : Inj (=) (=) (contains s).
Proof. by intros s1 s2 [= ->]. Qed.

Lemma filter_none {A} (h : A → bool) (l : list A) :
  Forall (λ x, h x = false) l → List.filter h l = [].
Proof. induction 1 as [|x l Hx _ IH]; simpl; [done|]. by rewrite Hx. Qed.

Lemma filter_all {A} (h : A → bool) (l : list A) :
  Forall (λ x, h x = true) l → List.filter h l = l.
Proof. induction 1 as [|x l Hx _ IH]; simpl; [done|]. by rewrite Hx, IH. Qed.

Lemma filter_filter_same {A} (h : A → bool) (l : list A) :
  List.filter h (List.filter h l) = List.filter h l.
Proof.
  apply filter_all, Forall_forall. intros x Hx.
  by apply list_elem_of_In, filter_In in Hx as [_ ?].
Qed.

Lemma base_relationships_kept o :
  List.filter should_keep_relationship (base_relationships o) = base_relationships o.
Proof. destruct o; [apply filter_filter_same|done]. Qed.

Lemma elem_of_describe_one packages pwf k r :
  r ∈ describe_one packages pwf k ↔
  ∃ s, package_spdx_id packages k = Some s ∧ k ∈ pwf ∧ r = describes s.
Proof.
  unfold describe_one. destruct (package_spdx_id packages k) as [s|].
  - case_bool_decide.
    + rewrite list_elem_of_singleton. naive_solver.
    + rewrite elem_of_nil. naive_solver.
  - rewrite elem_of_nil. naive_solver.
Qed.

Lemma elem_of_describe_list packages pwf ids r :
  r ∈ describe_list packages pwf ids ↔
  ∃ k s, k ∈ ids ∧ package_spdx_id packages k = Some s ∧ k ∈ pwf
         ∧ r = describes s.
Proof.
  unfold describe_list. rewrite list_elem_of_bind.
  setoid_rewrite elem_of_describe_one. naive_solver.
Qed.

Lemma elem_of_contains_one packages group r :
  r ∈ contains_one packages group ↔
  ∃ s fid, package_spdx_id packages group.1 = Some s ∧ fid ∈ group.2
           ∧ r = contains s fid.
Proof.
  unfold contains_one. destruct (package_spdx_id packages group.1) as [s|].
  - rewrite list_elem_of_fmap. naive_solver.
  - rewrite elem_of_nil. naive_solver.
Qed.

Lemma elem_of_contains_list packages groups r :
  r ∈ contains_list packages groups ↔
  ∃ k fids s fid, (k, fids) ∈ groups ∧ package_spdx_id packages k = Some s
                  ∧ fid ∈ fids ∧ r = contains s fid.
Proof.
  unfold contains_list. rewrite list_elem_of_bind.
  setoid_rewrite elem_of_contains_one. split.
  - intros ([k fids] & (s & fid & ? & ? & ?) & ?). by exists k, fids, s, fid.
  - intros (k & fids & s & fid & ? & ? & ? & ?). exists (k, fids). naive_solver.
Qed.

Lemma describe_list_not_kept packages pwf ids :
  Forall (λ r, should_keep_relationship r = false) (describe_list packages pwf ids).
Proof.
  apply Forall_forall. intros r (k & s & _ & _ & _ & ->)%elem_of_describe_list.
  apply should_keep_describes.
Qed.

Lemma contains_list_not_kept packages groups :
  Forall (λ r, should_keep_relationship r = false) (contains_list packages groups).
Proof.
  apply Forall_forall. intros r (k & fids & s & fid & _ & _ & _ & ->)%elem_of_contains_list.
  apply should_keep_contains.
Qed.

(** The edges that pass through are those of the input. *)
Lemma filter_keep_result o packages pwf ids groups :
  List.filter should_keep_relationship
    (base_relationships o ++ describe_list packages pwf ids
     ++ contains_list packages groups)
  = base_relationships o.
Proof.
  rewrite !List.filter_app, base_relationships_kept.
  rewrite (filter_none _ _ (describe_list_not_kept _ _ _)).
  rewrite (filter_none _ _ (contains_list_not_kept _ _)).
  by rewrite !app_nil_r.
Qed.






(** Lengths depend only on which keys have an identifier. *)
Lemma length_describe_list packages packages' pwf ids :
  (∀ k, is_Some (package_spdx_id packages k)
        ↔ is_Some (package_spdx_id packages' k)) →
  length (describe_list packages pwf ids)
  = length (describe_list packages' pwf ids).
Proof.
  intros Hsame. unfold describe_list.
  induction ids as [|k ids IH]; [done|]. rewrite !bind_cons, !length_app, IH.
  f_equal. unfold describe_one. specialize (Hsame k).
  destruct (package_spdx_id packages k), (package_spdx_id packages' k);
    try done; [by case_bool_decide|..].
  - destruct Hsame as [Hs _]. by destruct Hs.
  - destruct Hsame as [_ Hs]. by destruct Hs.
Qed.

Lemma length_contains_list packages packages' groups :
  (∀ k, is_Some (package_spdx_id packages k)
        ↔ is_Some (package_spdx_id packages' k)) →
  length (contains_list packages groups)
  = length (contains_list packages' groups).
Proof.
  intros Hsame. unfold contains_list.
  induction groups as [|[k fids] groups IH]; [done|].
  rewrite !bind_cons, !length_app, IH.
  f_equal. unfold contains_one. cbn [fst snd]. specialize (Hsame k).
  destruct (package_spdx_id packages k), (package_spdx_id packages' k);
    try done; [by rewrite !length_fmap|..].
  - destruct Hsame as [Hs _]. by destruct Hs.
  - destruct Hsame as [_ Hs]. by destruct Hs.
Qed.

End RelationshipSets.

(** *** The result of [pre_process] *)

Section PreProcessResult.
Context {env : Env}.

(** What a returned data set is made of. *)
Lemma pre_process_Some d d' :
  pre_process d = Some d' →
  Data.files d' = files_out d
  ∧ Data.licenses d'
    = collect_licenses (Data.licenses d)
        (set_license_exprs (sort_files (Data.files d)))
  ∧ sort_licenses (Data.licenses d') = Some (Data.licenses_sorted d')
  ∧ Data.packages_sorted d' = ids_of d
  ∧ objs_rel package_final (Data.packages d) (Data.packages d')
  ∧ (∀ k, k ∈ dict_keys (Data.packages d) →
       ∃ p j, dict_get (Data.packages d') k = Some p
              ∧ Package.spdx_id p = Some (package_ref (1 + j))
              ∧ ids_of d !! j = Some k)
  ∧ Data.relationships d'
    = Some (base_relationships (Data.relationships d)
            ++ describe_list (Data.packages d')
                 (list_to_set (dict_keys (group_files (files_out d))))
                 (ids_of d)
            ++ contains_list (Data.packages d') (group_files (files_out d))).
Proof.
  destruct (pre_process_unfold d) as (pk2 & M & _ & Hrel & Hspdx & _ & ->).
  cbn zeta. destruct (sort_licenses _) as [ls|] eqn:Hls; [|done].
  intros [= <-]. cbn [Data.files Data.licenses Data.licenses_sorted
    Data.packages_sorted Data.packages Data.relationships]. done.
Qed.

(** The only statement of [pre_process] that can fail is the license sort. *)
Lemma pre_process_is_Some d :
  is_Some (sort_licenses
             (collect_licenses (Data.licenses d)
                (set_license_exprs (sort_files (Data.files d))))) →
  is_Some (pre_process d).
Proof.
  intros [ls Hls].
  destruct (pre_process_unfold d) as (pk2 & M & _ & _ & _ & _ & ->).
  cbn zeta. rewrite Hls. by eexists.
Qed.


End PreProcessResult.


(** *** The model against the choices made for it *)

(** [Py.sorted] returns the one sorted arrangement of its argument, so the
    order in which a set lists its elements does not show in
    [sorted(simple_expr_items.union(or_expr_items))]. *)
Lemma sorted_unique (l l' : list string) :
  l' ≡ₚ l → Sorted String.le l' → l' = Py.sorted l.
Proof.
  intros Hp Hs. apply (Sorted_unique String.le); [done|apply (sorted_by_Sorted id)|].
  unfold Py.sorted. by rewrite sorted_by_Permutation.
Qed.

(** The sort keys of [lic_reorder] end with the identifier, so they are
    pairwise distinct and [licenses_sorted] does not depend on the order in
    which [data.licenses] lists its keys. *)
Lemma lic_reorder_shape {env : Env} licenses id k :
  lic_reorder licenses id = Some k → ∃ c, k = String c id.
Proof.
  unfold lic_reorder. destruct (licenses !! id) as [lic|]; [|done].
  cbn [mbind option_bind]. case_bool_decide as Hid.
  - intros [= <-]. subst id. by eexists.
  - destruct lic as [lic|]; [|done]. cbn [mbind option_bind].
    destruct (is_expr lic), (custom lic), (Py.startswith id "LicenseRef-");
      intros [= <-]; by eexists.
Qed.

Lemma lic_reorder_inj {env : Env} licenses id1 id2 k :
  lic_reorder licenses id1 = Some k → lic_reorder licenses id2 = Some k →
  id1 = id2.
Proof.
  intros [c1 ->]%lic_reorder_shape [c2 Heq]%lic_reorder_shape. congruence.
Qed.

(** [sub in s] and [s.find(sub)] agree. *)
Lemma contains_find sub s : Py.contains sub s = true ↔ is_Some (Py.find sub s).
Proof.
  unfold Py.contains. destruct (Py.find sub s); split; try done; by intros [? ?].
Qed.

(** The examples of the specification, on the sample environment. *)
Example and_composition :
  @build_license_expr sample_env ["MIT"; "Apache-2.0"] = "APACHE-2.0 AND MIT".
Proof. by vm_compute. Qed.

Example or_parenthesization :
  @build_license_expr sample_env ["MIT OR BSD-3-Clause"; "GPL-2.0"]
  = "(MIT OR BSD-3-CLAUSE) AND GPL-2.0".
Proof. by vm_compute. Qed.

Example no_license_sentinel : @build_license_expr sample_env [] = "".
Proof. by vm_compute. Qed.

Example compound_and_bare :
  @build_license_expr sample_env ["Apache-2.0 AND MIT"; "MIT"]
  = "APACHE-2.0 AND MIT".
Proof. by vm_compute. Qed.

Example github_name_git :
  github_name 8 "https://github.com/nrfconnect/sdk-nrf.git" = "nrfconnect/sdk-nrf".
Proof. by vm_compute. Qed.

Example name_collision :
  match friendly_packages
          [("a", sample_package "a" (Some "lib") (Some "1.0") (Some "http://a"));
           ("b", sample_package "b" (Some "lib") (Some "2.0") (Some "http://b"))]
  with
  | Some (packages, _) => map (λ kv, Package.name kv.2) packages
  | None => []
  end = [Some "lib-1.0"; Some "lib-2.0"].
Proof. by vm_compute. Qed.

Example sample_relationships :
  Data.relationships sample_output
  = Some [describes "SPDXRef-Package-2"; describes "SPDXRef-Package-3";
          contains "SPDXRef-Package-2" "SPDXRef-File-1";
          contains "SPDXRef-Package-3" "SPDXRef-File-2";
          contains "SPDXRef-Package-3" "SPDXRef-File-3"].
Proof. by vm_compute. Qed.

Example sample_licenses_sorted :
  Data.licenses_sorted sample_output
  = [""; "(MIT OR BSD-3-CLAUSE) AND GPL-2.0"; "BSD-3-CLAUSE"; "GPL-2.0"; "MIT"].
Proof. by vm_compute. Qed.


(** *** Specified properties of the license-expression pass *)

Section LicenseExprClaims.
Context {env : Env}.

(** C1 (amended). The loop body holds two independent tests.  Every
    upper-cased token joins exactly one of the or-items and the simple-items:
    the or-items when it is invalid or contains a top-level OR, the
    simple-items otherwise.  Besides that, a valid token that is not id-only
    and has more than one identifier adds its identifiers to the repeated
    set; the token itself is still filed among the or-items or the
    simple-items. *)
Theorem classify_all_classes raw x :
  (x ∈ or_expr_items (classify_all raw) ↔
     x ∈ tokens raw ∧ is_or_item (get_spdx_license_expr_info x) = true)
  ∧ (x ∈ simple_expr_items (classify_all raw) ↔
       x ∈ tokens raw ∧ is_or_item (get_spdx_license_expr_info x) = false)
  ∧ (x ∈ repeated_expr_items (classify_all raw) ↔
       ∃ u, u ∈ tokens raw
            ∧ is_compound (get_spdx_license_expr_info u) = true
            ∧ x ∈ LicenseExprInfo.licenses (get_spdx_license_expr_info u))
  ∧ (x ∈ tokens raw →
       (x ∈ or_expr_items (classify_all raw)
        ∧ x ∉ simple_expr_items (classify_all raw))
       ∨ (x ∈ simple_expr_items (classify_all raw)
          ∧ x ∉ or_expr_items (classify_all raw))).
Proof.
  split; [apply classify_all_or|]. split; [apply classify_all_simple|].
  split; [apply classify_all_repeated|].
  intros Hx. rewrite !classify_all_or, !classify_all_simple.
  destruct (is_or_item (get_spdx_license_expr_info x)); [left|right];
    (split; [done|]); by intros [_ ?].
Qed.

(** C3 (amended). For a file whose raw license list is one token [X] that
    the resolver, asked about the upper-cased token, reports valid and
    id-only, [license_expr] is [X] in upper case. *)
Theorem single_identifier_expr X :
  LicenseExprInfo.valid (get_spdx_license_expr_info (upper X)) = true →
  LicenseExprInfo.is_id_only (get_spdx_license_expr_info (upper X)) = true →
  build_license_expr [X] = upper X.
Proof.
  intros Hv Hi. apply build_license_expr_single.
  unfold is_compound. by rewrite Hv, Hi.
Qed.

Lemma build_license_expr_perm raw1 raw2 :
  raw1 ≡ₚ raw2 → build_license_expr raw1 = build_license_expr raw2.
Proof.
  intros Hp. apply build_license_expr_set, set_eq. intros x.
  by rewrite !elem_of_list_to_set, Hp.
Qed.

Lemma build_license_expr_same_upper t t' raw :
  t' ∈ raw → upper t = upper t' →
  build_license_expr (t :: raw) = build_license_expr raw.
Proof.
  intros Hin Hup. apply build_license_expr_set, set_eq. intros x.
  rewrite !elem_of_list_to_set, fmap_cons, elem_of_cons.
  split; [intros [->|?]; [|done]|by right].
  rewrite Hup. by apply list_elem_of_fmap_2.
Qed.

(** C10. [license_expr] depends only on the set of the upper-cased raw
    tokens: two token lists with the same set give the same expression; in
    particular a permutation of the list, a token repeated, and a token that
    is equal to one of the list once upper-cased change nothing. *)
Theorem license_expr_of_token_set :
  (∀ raw1 raw2,
     list_to_set (upper <$> raw1) =@{gset string} list_to_set (upper <$> raw2) →
     build_license_expr raw1 = build_license_expr raw2)
  ∧ (∀ raw1 raw2,
       raw1 ≡ₚ raw2 → build_license_expr raw1 = build_license_expr raw2)
  ∧ (∀ t raw,
       t ∈ raw → build_license_expr (t :: raw) = build_license_expr raw)
  ∧ (∀ t t' raw,
       t' ∈ raw → upper t = upper t' →
       build_license_expr (t :: raw) = build_license_expr raw).
Proof.
  split; [apply build_license_expr_set|]. split; [apply build_license_expr_perm|].
  split; [|apply build_license_expr_same_upper].
  intros t raw Hin. by apply (build_license_expr_same_upper t t).
Qed.

End LicenseExprClaims.

(** C1, as stated, fails: the token ["MIT OR BSD-3-CLAUSE"] is valid, not
    id-only and has two identifiers, yet it is itself among the or-items,
    and it is the whole of [license_expr]. *)
Lemma classify_all_counterexample :
  is_compound (sample_info "MIT OR BSD-3-CLAUSE") = true
  ∧ "MIT OR BSD-3-CLAUSE"
      ∈ or_expr_items (@classify_all sample_env ["MIT OR BSD-3-Clause"])
  ∧ @build_license_expr sample_env ["MIT OR BSD-3-Clause"]
    = "MIT OR BSD-3-CLAUSE".
Proof.
  split; [done|]. split; [|by vm_compute].
  apply (bool_decide_unpack _). by vm_compute.
Qed.

(** C3, as stated, fails on [Apache-2.0]: the identifier is recognised,
    valid and id-only, and [license_expr] is ["APACHE-2.0"]. *)
Lemma single_identifier_counterexample :
  sample_is_spdx_license "Apache-2.0" = true
  ∧ LicenseExprInfo.valid (sample_info "Apache-2.0") = true
  ∧ LicenseExprInfo.is_id_only (sample_info "Apache-2.0") = true
  ∧ @build_license_expr sample_env ["Apache-2.0"] = "APACHE-2.0"
  ∧ @build_license_expr sample_env ["Apache-2.0"] ≠ "Apache-2.0".
Proof. repeat split; by vm_compute. Qed.

Lemma single_identifier_expr_witness :
  @build_license_expr sample_env ["Apache-2.0"] = "APACHE-2.0".
Proof. apply (@single_identifier_expr sample_env "Apache-2.0"); reflexivity. Defined.

Lemma license_expr_of_token_set_witness :
  @build_license_expr sample_env ["mit"; "GPL-2.0"; "MIT"]
  = @build_license_expr sample_env ["GPL-2.0"; "MIT"].
Proof.
  apply (proj1 (@license_expr_of_token_set sample_env)). vm_compute. reflexivity.
Defined.


(** *** Specified properties of the license catalog *)

Section CatalogClaims.
Context {env : Env}.

Lemma join_subset_empty (S : gset string) :
  S ⊆ {[""]} → Py.join " AND " (Py.sorted (elements S)) = "".
Proof.
  intros HS. destruct (decide ("" ∈ S)) as [Hin|Hin].
  - assert (S = {[""]}) as -> by set_solver. by rewrite elements_singleton.
  - assert (S = ∅) as -> by set_solver. by rewrite elements_empty.
Qed.

(** A file without licenses gets the empty expression. *)
Lemma build_license_expr_nil : upper "" = "" → build_license_expr [] = "".
Proof.
  intros Hup. unfold build_license_expr. apply join_subset_empty.
  intros x Hx. apply elem_of_singleton.
  assert (∀ y, y ∈ tokens [] → y = "") as Htok.
  { intros y. unfold tokens, licenses_or_sentinel. simpl. rewrite Hup.
    by intros ->%list_elem_of_singleton. }
  apply elem_of_union in Hx as [Hx|Hx].
  - apply elem_of_difference in Hx as [Hx _].
    apply classify_all_simple in Hx as [Hx _]. by apply Htok.
  - assert (or_expr_items (classify_all []) ⊆ {[""]}) as Hor.
    { intros y [Hy _]%classify_all_or. apply elem_of_singleton. by apply Htok. }
    assert (size (or_expr_items (classify_all [])) ≤ 1) as Hsize.
    { etrans; [by apply subseteq_size|]. by rewrite size_singleton. }
    assert (simple_expr_items (classify_all []) ∖ repeated_expr_items (classify_all [])
            ⊆ {[""]}) as Hsimple.
    { intros y [Hy _]%elem_of_difference. apply classify_all_simple in Hy as [Hy _].
      apply elem_of_singleton. by apply Htok. }
    rewrite bool_decide_eq_false_2 in Hx by lia. cbn [orb] in Hx.
    case_bool_decide as Hs.
    + (* a simple item is left: there is no or-item at all *)
      exfalso. apply elem_of_map in Hx as (y & _ & Hy).
      apply classify_all_or in Hy as [Hy Hor'].
      apply Htok in Hy as ->.
      assert (∃ z, z ∈ simple_expr_items (classify_all [])
                       ∖ repeated_expr_items (classify_all [])) as [z Hz].
      { apply size_pos_elem_of. lia. }
      apply elem_of_difference in Hz as [Hz _].
      apply classify_all_simple in Hz as [Hz Hsim]. apply Htok in Hz as ->.
      congruence.
    + specialize (Hor x Hx). by apply elem_of_singleton in Hor.
Qed.


(** C2 (amended). After [pre_process] returns, every file's [license_expr]
    is a key of [data.licenses], provided the resolver lists a bare
    identifier among its own identifiers; the string is not always
    non-empty: it is [""] for a file whose raw license list is empty. *)
Theorem license_expr_cataloged d d' :
  id_only_self → upper "" = "" →
  pre_process d = Some d' →
  ∀ file, file ∈ Data.files d' →
    File.license_expr file ∈ dom (Data.licenses d')
    ∧ (File.licenses file = [] → File.license_expr file = "").
Proof.
  intros Hself Hup Hd f Hf.
  apply pre_process_Some in Hd as (Hfiles & Hlic & _).
  rewrite Hfiles in Hf. split.
  - rewrite Hlic.
    assert (File.license_expr f
              ∈ File.license_expr <$> set_license_exprs (sort_files (Data.files d)))
      as Hin by (rewrite <-files_out_exprs; by apply list_elem_of_fmap_2).
    apply list_elem_of_fmap in Hin as (g & -> & Hg).
    by apply foldl_register_file_expr_key.
  - intros Hnil. rewrite (files_out_license_expr _ _ Hf), Hnil.
    by apply build_license_expr_nil.
Qed.


End CatalogClaims.

Lemma sample_id_only_self : @id_only_self sample_env.
Proof.
  intros expr. cbn [get_spdx_license_expr_info sample_env]. unfold sample_info.
  repeat case_bool_decide; try done. destruct (Py.contains " " expr); [done|].
  intros _ _. apply list_elem_of_here.
Qed.



Lemma sample_pre_process :
  @pre_process sample_env sample_input = Some sample_output.
Proof. by vm_compute. Qed.

(** C2, as stated, fails: a file without licenses gets the empty string. *)
Lemma license_expr_cataloged_counterexample :
  ∃ d' file,
    @pre_process sample_env
      (sample_data [sample_file "a.c" [] "p"]
         [("p", sample_package "p" None None None)] None) = Some d'
    ∧ file ∈ Data.files d'
    ∧ File.licenses file = []
    ∧ File.license_expr file = "".
Proof.
  eexists _, _. split; [by vm_compute|].
  split; [apply list_elem_of_here|]. done.
Qed.

Lemma license_expr_cataloged_witness :
  File.license_expr sample_readme ∈ dom (Data.licenses sample_output)
  ∧ (File.licenses sample_readme = [] → File.license_expr sample_readme = "").
Proof.
  apply (@license_expr_cataloged sample_env sample_input sample_output).
  - apply sample_id_only_self.
  - reflexivity.
  - apply sample_pre_process.
  - apply list_elem_of_here.
Defined.



(** *** Specified properties of the relationships *)

Section RelationshipClaims.
Context {env : Env}.


(** The identifier of a package of the result. *)
Lemma package_spdx_id_Some d d' k s :
  pre_process d = Some d' →
  package_spdx_id (Data.packages d') k = Some s ↔
  ∃ p, dict_get (Data.packages d') k = Some p ∧ Package.spdx_id p = Some s.
Proof.
  intros (_ & _ & _ & _ & Hrel & Hspdx & _)%pre_process_Some.
  unfold package_spdx_id. split.
  - destruct (dict_get _ k) as [p|]; [|done]. cbn [mbind option_bind].
    destruct (Package.spdx_id p) as [s'|] eqn:Hs; [|done].
    cbn [mbind option_bind].
    destruct (Py.truthy _); [|done]. intros [= ->]. by exists p.
  - intros (p & Hp & Hs).
    assert (k ∈ dict_keys (Data.packages d)) as Hk.
    { rewrite <-(objs_rel_keys _ _ _ Hrel). apply dict_get_is_Some. by eexists. }
    destruct (Hspdx k Hk) as (p' & j & Hp' & Hs' & _).
    assert (p' = p) as -> by congruence.
    rewrite Hp. cbn [mbind option_bind]. rewrite Hs. cbn [mbind option_bind].
    assert (s = package_ref (1 + j)) as -> by congruence.
    by rewrite package_ref_truthy.
Qed.

Lemma package_spdx_id_is_Some d d' k :
  pre_process d = Some d' →
  is_Some (package_spdx_id (Data.packages d') k)
  ↔ k ∈ dict_keys (Data.packages d).
Proof.
  intros Hd. pose proof Hd as (_ & _ & _ & _ & Hrel & Hspdx & _)%pre_process_Some.
  split.
  - intros [s (p & Hp & _)%(package_spdx_id_Some d d')]; [|done].
    rewrite <-(objs_rel_keys _ _ _ Hrel). apply dict_get_is_Some. by eexists.
  - intros Hk. destruct (Hspdx k Hk) as (p & j & Hp & Hs & _).
    exists (package_ref (1 + j)). apply (package_spdx_id_Some d d'); [done|].
    by exists p.
Qed.

Lemma package_spdx_id_inj d d' k1 k2 s :
  pre_process d = Some d' →
  package_spdx_id (Data.packages d') k1 = Some s →
  package_spdx_id (Data.packages d') k2 = Some s → k1 = k2.
Proof.
  intros Hd. pose proof Hd as (_ & _ & _ & _ & Hrel & Hspdx & _)%pre_process_Some.
  intros (p1 & Hp1 & Hs1)%(package_spdx_id_Some d d')
    (p2 & Hp2 & Hs2)%(package_spdx_id_Some d d'); [|done..].
  assert (∀ k p, dict_get (Data.packages d') k = Some p →
            k ∈ dict_keys (Data.packages d)) as Hkeys.
  { intros k p Hp. rewrite <-(objs_rel_keys _ _ _ Hrel).
    apply dict_get_is_Some. by eexists. }
  destruct (Hspdx k1 (Hkeys _ _ Hp1)) as (p1' & j1 & Hp1' & Hs1' & Hj1).
  destruct (Hspdx k2 (Hkeys _ _ Hp2)) as (p2' & j2 & Hp2' & Hs2' & Hj2).
  assert (package_ref (1 + j1) = package_ref (1 + j2)) as Heq by congruence.
  apply (inj package_ref) in Heq. assert (j1 = j2) as -> by lia. congruence.
Qed.

Lemma base_relationships_all_kept o :
  Forall (λ r, should_keep_relationship r = true) (base_relationships o).
Proof.
  apply Forall_forall. intros r Hr. destruct o as [rels|]; [|by apply elem_of_nil in Hr].
  by apply list_elem_of_In, filter_In in Hr as [_ ?].
Qed.


End RelationshipClaims.



Section RerunClaims.
Context {env : Env}.


Lemma assign_file_ids_Sorted files c :
  Sorted (key_le File.file_path) files →
  Sorted (key_le File.file_path) (assign_file_ids c files).
Proof.
  intros Hs. revert c. induction Hs as [|f files Hfiles IH Hf]; intros c; simpl;
    constructor; [by apply IH|].
  destruct Hf; simpl; by constructor.
Qed.

Lemma files_out_Sorted d : Sorted (key_le File.file_path) (files_out d).
Proof.
  unfold files_out. apply assign_file_ids_Sorted.
  apply (key_le_fmap _ File.file_path File.file_path); [done|].
  apply sorted_by_Sorted.
Qed.

Lemma set_license_exprs_fixed files :
  (∀ f, f ∈ files → File.license_expr f = build_license_expr (File.licenses f)) →
  set_license_exprs files = files.
Proof.
  intros Hall. unfold set_license_exprs.
  induction files as [|f files IH]; [done|]. cbn [fmap list_fmap]. f_equal.
  - rewrite <-(Hall f) by apply list_elem_of_here. by destruct f.
  - apply IH. intros g Hg. by apply Hall, list_elem_of_further.
Qed.

Lemma assign_file_ids_idemp files c :
  assign_file_ids c (assign_file_ids c files) = assign_file_ids c files.
Proof. revert c. induction files as [|f files IH]; intros c; simpl; [done|]. by rewrite IH. Qed.

(** The file passes do nothing to their own result. *)
Lemma files_out_again d d1 :
  Data.files d1 = files_out d → files_out d1 = Data.files d1.
Proof.
  intros Hfiles. unfold files_out at 1. unfold sort_files.
  rewrite sorted_by_fixed by (rewrite Hfiles; apply files_out_Sorted).
  rewrite set_license_exprs_fixed
    by (intros f Hf; rewrite Hfiles in Hf; by eapply files_out_license_expr).
  rewrite Hfiles. apply assign_file_ids_idemp.
Qed.

(** C9. Applying [pre_process] to the data set that a first application
    returned does not raise, leaves [data.files] as it was and yields as
    many relationships. *)
Theorem pre_process_twice d d1 :
  pre_process d = Some d1 →
  ∃ d2,
    pre_process d1 = Some d2
    ∧ Data.files d2 = Data.files d1
    ∧ length <$> Data.relationships d2 = length <$> Data.relationships d1.
Proof.
  intros Hd.
  pose proof Hd as (Hfiles & Hlic & Hsort & _ & Hrel & _ & Hrels)%pre_process_Some.
  assert (files_out d1 = Data.files d1) as Hagain by (by eapply files_out_again).
  assert (collect_licenses (Data.licenses d1)
            (set_license_exprs (sort_files (Data.files d1)))
          = Data.licenses d1) as Hlic2.
  { rewrite Hlic at 2.
    rewrite <-(collect_licenses_again (Data.licenses d)), <-Hlic.
    apply collect_licenses_ext.
    by rewrite <-(files_out_exprs d1), Hagain, Hfiles, files_out_exprs. }
  destruct (pre_process_is_Some d1) as [d2 Hd2]; [rewrite Hlic2, Hsort; by eexists|].
  exists d2. split; [done|].
  pose proof Hd2 as (Hfiles2 & _ & _ & _ & Hrel2 & _ & Hrels2)%pre_process_Some.
  split; [by rewrite Hfiles2|].
  rewrite Hrels2, Hrels. cbn [fmap option_fmap option_map]. f_equal.
  assert (ids_of d1 = ids_of d) as ->
    by (unfold ids_of; by rewrite (objs_rel_keys _ _ _ Hrel)).
  rewrite Hagain, Hfiles.
  assert (base_relationships
            (Some (base_relationships (Data.relationships d)
                   ++ describe_list (Data.packages d1)
                        (list_to_set (dict_keys (group_files (files_out d))))
                        (ids_of d)
                   ++ contains_list (Data.packages d1)
                        (group_files (files_out d))))
          = base_relationships (Data.relationships d)) as Hbase
    by apply filter_keep_result.
  rewrite Hbase, !length_app. f_equal.
  assert (∀ k, is_Some (package_spdx_id (Data.packages d2) k)
               ↔ is_Some (package_spdx_id (Data.packages d1) k)) as Hsame.
  { intros k. rewrite (package_spdx_id_is_Some d1 d2), (package_spdx_id_is_Some d d1)
      by done. by rewrite (objs_rel_keys _ _ _ Hrel). }
  f_equal; [by apply length_describe_list|by apply length_contains_list].
Qed.

End RerunClaims.



Lemma pre_process_twice_witness :
  ∃ d2,
    @pre_process sample_env sample_output = Some d2
    ∧ Data.files d2 = Data.files sample_output
    ∧ length <$> Data.relationships d2
      = length <$> Data.relationships sample_output.
Proof.
  apply (@pre_process_twice sample_env sample_input sample_output).
  apply sample_pre_process.
Defined.


(** *** Specified properties of the package names *)

Section NameClaims.
Context {env : Env}.

Lemma normalized_github_name p url pos :
  Package.name p = None → Package.url p = Some url →
  Py.find "github.com" url = Some pos →
  Package.name (normalized p) = Some (github_name pos url).
Proof.
  intros Hn Hu Hf. unfold normalized. rewrite default_version_url, Hu.
  rewrite default_browser_url_name. unfold fallback_name, derive_name.
  assert (Package.name (default_version p) = None) as ->
    by (unfold default_version; by destruct (Package.version p)).
  by rewrite Hf.
Qed.

Lemma normalized_version p : is_Some (Package.version (normalized p)).
Proof.
  unfold normalized. destruct (Package.url _); [|apply default_version_version].
  rewrite default_browser_url_version, fallback_name_version, derive_name_version.
  apply default_version_version.
Qed.

(** C7 (amended). For a package whose name is unset and whose url contains
    [github.com], the name is all of the url that follows the first
    [github.com] and one more character, without a final [.git]: for
    [https://github.com/org/repo] it is [org/repo].  Collision resolution
    may append ['-' + version] to it; [n] counts how often. *)
Theorem github_name_derived d d' i k p url pos :
  pre_process d = Some d' →
  Data.packages d !! i = Some (k, p) →
  Package.name p = None → Package.url p = Some url →
  Py.find "github.com" url = Some pos →
  ∃ p' n version,
    Data.packages d' !! i = Some (k, p')
    ∧ Package.version p' = Some version
    ∧ Package.name p' = Some (suffixed n version (github_name pos url))
    ∧ github_name pos url
      = (let name := Py.drop (pos + 11) url in
         if Py.endswith name ".git" then Py.drop_end 4 name else name).
Proof.
  intros (_ & _ & _ & _ & Hrel & _)%pre_process_Some Hi Hn Hu Hf.
  destruct (objs_rel_lookup _ _ _ _ _ _ Hrel Hi) as (p' & Hi' & s & r & n & ->).
  set (q := Package.set_external_refs r (Package.set_spdx_id s p)).
  assert (Package.name (normalized q) = Some (github_name pos url)) as Hname
    by (by apply normalized_github_name).
  destruct (normalized_version q) as [v Hv].
  exists (add_suffixes n (normalized q)), n, v. split; [done|].
  split; [by rewrite add_suffixes_version|]. split.
  - unfold add_suffixes. by rewrite Hname, Hv.
  - unfold github_name. cbn [String.length].
    by replace (pos + 10 + 1) with (pos + 11) by lia.
Qed.

End NameClaims.

(** C7, as stated, fails: the name is [org/repo], not [org]. *)
Lemma github_name_counterexample :
  ∃ d' p,
    @pre_process sample_env
      (sample_data []
         [("pkg", sample_package "pkg" None None
                    (Some "https://github.com/org/repo"))] None) = Some d'
    ∧ dict_get (Data.packages d') "pkg" = Some p
    ∧ Package.name p = Some "org/repo"
    ∧ Package.name p ≠ Some "org".
Proof.
  eexists _, _. split; [by vm_compute|]. split; [by vm_compute|].
  split; [by vm_compute|]. by vm_compute.
Qed.

Lemma github_name_derived_witness :
  ∃ p' n version,
    Data.packages sample_output !! 0 = Some ("zephyr", p')
    ∧ Package.version p' = Some version
    ∧ Package.name p'
      = Some (suffixed n version
                (github_name 8 "https://github.com/zephyrproject-rtos/zephyr.git"))
    ∧ github_name 8 "https://github.com/zephyrproject-rtos/zephyr.git"
      = (let name := Py.drop (8 + 11)
                       "https://github.com/zephyrproject-rtos/zephyr.git" in
         if Py.endswith name ".git" then Py.drop_end 4 name else name).
Proof.
  apply (@github_name_derived sample_env sample_input sample_output 0 "zephyr"
           (sample_package "zephyr" None (Some "3.0")
              (Some "https://github.com/zephyrproject-rtos/zephyr.git"))).
  - apply sample_pre_process.
  - reflexivity.
  - reflexivity.
  - reflexivity.
  - reflexivity.
Defined.


Section CollisionClaims.
Implicit Types (packages : list (string * Package.t)) (M : gmap string nat).

Lemma normalized_with_url p url :
  Package.url p = Some url →
  normalized p
  = default_browser_url url (fallback_name url (derive_name url (default_version p))).
Proof. intros Hu. apply normalized_url. by rewrite default_version_url. Qed.

(** A visit that finds the name free. *)
Lemma name_step_free packages M i p url name :
  get_obj packages i = Some p →
  Package.url p = Some url →
  Package.name (normalized p) = Some name →
  M !! name = None →
  name_step (packages, M) i
  = Some (set_obj i (normalized p) packages, <[name:=i]> M).
Proof.
  intros Hp Hu Hn HM. rewrite (normalized_with_url _ _ Hu) in *.
  rewrite default_browser_url_name in Hn.
  assert (i < length packages) as Hi by (by eapply get_obj_Some_lt).
  unfold name_step. rewrite Hp. cbn [mbind option_bind].
  rewrite default_version_url, Hu, Hn. cbn [mbind option_bind].
  rewrite HM. cbn [mbind option_bind].
  rewrite get_set_obj_eq by done. cbn [mbind option_bind].
  rewrite Hn. cbn [mbind option_bind]. do 2 f_equal.
  unfold set_obj. apply list_eq. intros j.
  destruct (decide (j = i)) as [->|Hji].
  - rewrite !list_lookup_alter_eq. by destruct (packages !! i).
  - by rewrite !list_lookup_alter_ne.
Qed.

(** A visit that finds the name taken by the package at position [e]:
    both names get ['-' + version] appended. *)
Lemma name_step_taken packages M i e p pe url name v ve :
  get_obj packages i = Some p →
  Package.url p = Some url →
  Package.name (normalized p) = Some name →
  Package.version (normalized p) = Some v →
  M !! name = Some e → e ≠ i →
  get_obj packages e = Some pe →
  Package.name pe = Some name →
  Package.version pe = Some ve →
  name_step (packages, M) i
  = Some (set_obj i (add_suffixes 1 (normalized p))
            (set_obj e (Package.set_name (Some (name +:+ "-" +:+ ve)) pe)
               packages),
          <[name +:+ "-" +:+ v := i]>
            (<[name +:+ "-" +:+ ve := e]> (delete name M))).
Proof.
  intros Hp Hu Hn Hv HM Hei Hpe Hpen Hpev.
  unfold add_suffixes. rewrite Hn, Hv.
  rewrite (normalized_with_url _ _ Hu) in *.
  rewrite default_browser_url_name in Hn. rewrite default_browser_url_version in Hv.
  assert (i < length packages) as Hi by (by eapply get_obj_Some_lt).
  unfold name_step. rewrite Hp. cbn [mbind option_bind].
  rewrite default_version_url, Hu, Hn. cbn [mbind option_bind].
  rewrite HM. unfold rename_both.
  rewrite get_set_obj_eq by done. cbn [mbind option_bind].
  rewrite Hv. cbn [mbind option_bind].
  rewrite !get_set_obj_ne, Hpe by done. cbn [mbind option_bind].
  rewrite Hpen, Hpev. cbn [mbind option_bind].
  rewrite get_set_obj_ne by done.
  rewrite get_set_obj_eq by (by rewrite length_set_obj).
  cbn [mbind option_bind Package.name Package.set_name]. do 2 f_equal.
  rewrite default_browser_url_set_name. unfold suffixed. cbn [Nat.iter nat_rect].
  unfold set_obj. apply list_eq. intros j.
  destruct (decide (j = i)) as [->|Hji].
  - rewrite !list_lookup_alter_eq, !list_lookup_alter_ne by done.
    rewrite !list_lookup_alter_eq, list_lookup_alter_ne by done.
    by destruct (packages !! i).
  - rewrite !(list_lookup_alter_ne _ _ i) by done.
    destruct (decide (j = e)) as [->|Hje].
    + rewrite !list_lookup_alter_eq, !list_lookup_alter_ne by done. done.
    + rewrite !list_lookup_alter_ne by done. done.
Qed.

(** Two packages with a url and the same derived name. *)
Lemma friendly_packages_pair k1 k2 p1 p2 name v1 v2 :
  is_Some (Package.url p1) → is_Some (Package.url p2) →
  Package.name (normalized p1) = Some name →
  Package.name (normalized p2) = Some name →
  Package.version (normalized p1) = Some v1 →
  Package.version (normalized p2) = Some v2 →
  ∃ q1 q2 M,
    friendly_packages [(k1, p1); (k2, p2)] = Some ([(k1, q1); (k2, q2)], M)
    ∧ Package.name q1 = Some (name +:+ "-" +:+ v1)
    ∧ Package.name q2 = Some (name +:+ "-" +:+ v2)
    ∧ (v1 ≠ v2 → Package.name q1 ≠ Package.name q2).
Proof.
  intros [url1 Hu1] [url2 Hu2] Hn1 Hn2 Hv1 Hv2.
  unfold friendly_packages. cbn [length seq foldlM].
  rewrite (name_step_free _ _ 0 p1 url1 name) by done.
  cbn [mbind option_bind].
  rewrite (name_step_taken _ _ 1 0 p2 (normalized p1) url2 name v2 v1);
    [|first [done|by rewrite lookup_insert_eq]..].
  cbn [mbind option_bind]. eexists _, _, _. split; [reflexivity|].
  cbn [Package.name Package.set_name]. split; [done|].
  unfold add_suffixes. rewrite Hn2, Hv2. cbn [Package.name Package.set_name].
  split; [done|]. intros Hv [= Heq]. apply Hv.
  by apply (inj (String.app name)), (inj (String.app "-")) in Heq.
Qed.

(** C6 (amended). Names are unique among the packages that
    [package_name_map] holds when the loop ends: every entry is keyed by the
    name its package bears, so two different packages in the map have
    different names.  A package enters the map when it is visited with a url
    set, and a collision met at that moment appends ['-' + version] to both
    names: two packages with a url, the same name and the versions [v1] and
    [v2] end as [name-v1] and [name-v2], different when the versions are.
    Packages without url never enter the map, and an entry overwritten by a
    later renaming leaves the map; their names can repeat. *)
Theorem package_names_registered :
  (∀ packages,
     ∃ packages' M,
       friendly_packages packages = Some (packages', M)
       ∧ ∀ name1 name2 e1 e2 q1 q2,
           M !! name1 = Some e1 → M !! name2 = Some e2 → e1 ≠ e2 →
           get_obj packages' e1 = Some q1 → get_obj packages' e2 = Some q2 →
           Package.name q1 ≠ Package.name q2)
  ∧ (∀ k1 k2 p1 p2 name v1 v2,
       is_Some (Package.url p1) → is_Some (Package.url p2) →
       Package.name (normalized p1) = Some name →
       Package.name (normalized p2) = Some name →
       Package.version (normalized p1) = Some v1 →
       Package.version (normalized p2) = Some v2 →
       ∃ q1 q2 M,
         friendly_packages [(k1, p1); (k2, p2)] = Some ([(k1, q1); (k2, q2)], M)
         ∧ Package.name q1 = Some (name +:+ "-" +:+ v1)
         ∧ Package.name q2 = Some (name +:+ "-" +:+ v2)
         ∧ (v1 ≠ v2 → Package.name q1 ≠ Package.name q2)).
Proof.
  split; [|apply friendly_packages_pair].
  intros packages.
  destruct (friendly_packages_spec packages) as (pk' & M & Hf & _ & HM).
  exists pk', M. split; [done|].
  intros n1 n2 e1 e2 q1 q2 H1 H2 Hne Hq1 Hq2 Heq.
  destruct (HM _ _ H1) as (q1' & Hq1' & Hn1).
  destruct (HM _ _ H2) as (q2' & Hq2' & Hn2).
  assert (n1 = n2) as -> by congruence. congruence.
Qed.

End CollisionClaims.

(** C6, as stated, fails: two packages without url keep the same name, and
    two packages with a url, the same name and the same version are both
    renamed to the same name. *)
Lemma package_names_counterexample :
  (∃ d' p1 p2,
     @pre_process sample_env
       (sample_data []
          [("a", sample_package "a" (Some "lib") None None);
           ("b", sample_package "b" (Some "lib") None None)] None) = Some d'
     ∧ dict_get (Data.packages d') "a" = Some p1
     ∧ dict_get (Data.packages d') "b" = Some p2
     ∧ Package.name p1 = Some "lib" ∧ Package.name p2 = Some "lib")
  ∧ (∃ d' p1 p2,
       @pre_process sample_env
         (sample_data []
            [("a", sample_package "a" (Some "lib") (Some "1.0") (Some "http://a"));
             ("b", sample_package "b" (Some "lib") (Some "1.0") (Some "http://b"))]
            None) = Some d'
       ∧ dict_get (Data.packages d') "a" = Some p1
       ∧ dict_get (Data.packages d') "b" = Some p2
       ∧ Package.name p1 = Some "lib-1.0" ∧ Package.name p2 = Some "lib-1.0").
Proof.
  split; eexists _, _, _; (split; [by vm_compute|]);
    (split; [by vm_compute|]); (split; [by vm_compute|]); by vm_compute.
Qed.

Lemma package_names_registered_witness :
  ∃ q1 q2 M,
    friendly_packages
      [("a", sample_package "a" (Some "lib") (Some "1.0") (Some "http://a"));
       ("b", sample_package "b" (Some "lib") (Some "2.0") (Some "http://b"))]
    = Some ([("a", q1); ("b", q2)], M)
    ∧ Package.name q1 = Some ("lib" +:+ "-" +:+ "1.0")
    ∧ Package.name q2 = Some ("lib" +:+ "-" +:+ "2.0")
    ∧ ("1.0" ≠ "2.0" → Package.name q1 ≠ Package.name q2).
Proof.
  apply (proj2 package_names_registered); try reflexivity; by eexists.
Defined.


(** ** Further properties of the passes *)

(** *** The file passes (lines 17-39 and 102-105) *)

Section FilePasses.
Context {env : Env}.

Lemma filter_insert_by {A} (key : A → string) (k : string) x l :
  List.filter (λ y, bool_decide (key y = k)) (Py.insert_by key x l)
  = List.filter (λ y, bool_decide (key y = k)) (x :: l).
Proof.
  induction l as [|y l IH]; [done|]. cbn [Py.insert_by].
  case_bool_decide as Hxy; [done|].
  cbn [List.filter] in *. rewrite IH.
  destruct (bool_decide (key x = k)) eqn:Hx, (bool_decide (key y = k)) eqn:Hy;
    try done.
  apply bool_decide_eq_true in Hx, Hy. exfalso. apply Hxy.
  rewrite Hx, Hy. done.
Qed.

(** The sort is stable: the elements of one key keep their order. *)
Lemma filter_sorted_by {A} (key : A → string) (k : string) l :
  List.filter (λ y, bool_decide (key y = k)) (Py.sorted_by key l)
  = List.filter (λ y, bool_decide (key y = k)) l.
Proof.
  induction l as [|x l IH]; [done|]. cbn [Py.sorted_by foldr].
  rewrite filter_insert_by. cbn [List.filter].
  fold (Py.sorted_by key l). by rewrite IH.
Qed.

Lemma filter_fmap_key {A} (h : A → A) (P : A → bool) l :
  (∀ x, P (h x) = P x) →
  List.filter P (h <$> l) = h <$> List.filter P l.
Proof.
  intros HP. induction l as [|x l IH]; [done|]. cbn [fmap list_fmap List.filter].
  rewrite HP. destruct (P x); cbn [fmap list_fmap]; by rewrite <-IH.
Qed.

Lemma file_input_assign_file_ids (P : File.t → bool) files : ∀ c,
  (∀ s f, P (File.set_spdx_id s f) = P f) →
  file_input <$> List.filter P (assign_file_ids c files)
  = file_input <$> List.filter P files.
Proof.
  induction files as [|f files IH]; intros c HP; [done|].
  cbn [assign_file_ids List.filter]. rewrite HP.
  destruct (P f); cbn [fmap list_fmap]; by rewrite IH.
Qed.

(** X1. After [pre_process] the files are in ascending order of
    [file_path]. *)
Theorem files_sorted d d' :
  pre_process d = Some d' →
  Sorted String.le (File.file_path <$> Data.files d').
Proof.
  intros (-> & _)%pre_process_Some.
  apply (Sorted_fmap _ (key_le File.file_path)); [done|].
  apply files_out_Sorted.
Qed.

(** X2. The sort is stable and loses nothing: for every path, the files of
    that path come out in the order in which they came in, with their
    licenses, detectors and package as they were; the number of files is
    unchanged. *)
Theorem files_kept d d' :
  pre_process d = Some d' →
  length (Data.files d') = length (Data.files d)
  ∧ ∀ path,
      file_input <$>
        List.filter (λ f, bool_decide (File.file_path f = path)) (Data.files d')
      = file_input <$>
          List.filter (λ f, bool_decide (File.file_path f = path)) (Data.files d).
Proof.
  intros (-> & _)%pre_process_Some. unfold files_out. split.
  - unfold set_license_exprs, sort_files.
    by rewrite length_assign_file_ids, length_fmap, length_sorted_by.
  - intros path. rewrite file_input_assign_file_ids by done.
    unfold set_license_exprs. rewrite filter_fmap_key by done.
    rewrite <-list_fmap_compose. unfold sort_files. rewrite filter_sorted_by.
    by apply list_fmap_ext.
Qed.

(** X3. The files are numbered from 1 in list order: the file at position
    [i] gets [SPDXRef-File-(i+1)], whatever identifier it had, and no two
    files share an identifier. *)
Theorem file_ids_sequential d d' :
  pre_process d = Some d' →
  (∀ i file, Data.files d' !! i = Some file →
     File.spdx_id file = "SPDXRef-File-" +:+ Py.str_of_nat (i + 1))
  ∧ NoDup (File.spdx_id <$> Data.files d').
Proof.
  intros (-> & _)%pre_process_Some. split; [|apply assign_file_ids_NoDup].
  intros i f. unfold files_out. rewrite assign_file_ids_lookup.
  intros (f0 & _ & ->)%fmap_Some. cbn [File.spdx_id File.set_spdx_id].
  unfold file_ref. by rewrite (Nat.add_comm i 1).
Qed.

Lemma collect_detectors_spec files : ∀ detectors x,
  x ∈ collect_detectors detectors files ↔
  x ∈ detectors ∨ ∃ file, file ∈ files ∧ x ∈ File.detectors file.
Proof.
  unfold collect_detectors.
  induction files as [|f files IH]; intros detectors x; cbn [foldl].
  - split; [by left|]. intros [?|(? & ?%elem_of_nil & _)]; done.
  - rewrite IH, elem_of_union. setoid_rewrite elem_of_cons. naive_solver.
Qed.

(** X4. [data.detectors] grows by the detectors of the files and by nothing
    else: what it held before stays. *)
Theorem detectors_collected d d' :
  pre_process d = Some d' →
  ∀ x, x ∈ Data.detectors d' ↔
       x ∈ Data.detectors d
       ∨ ∃ file, file ∈ Data.files d ∧ x ∈ File.detectors file.
Proof.
  intros Hd x.
  destruct (pre_process_unfold d) as (pk2 & M & _ & _ & _ & _ & Heq).
  rewrite Heq in Hd. cbn zeta in Hd.
  destruct (sort_licenses _) as [ls|]; [|done]. injection Hd as <-.
  cbn [Data.detectors]. rewrite collect_detectors_spec. f_equiv.
  unfold set_license_exprs, sort_files. split.
  - intros (f & (f0 & -> & Hf0)%list_elem_of_fmap & Hx).
    exists f0. split; [|done]. by rewrite elem_of_sorted_by in Hf0.
  - intros (f & Hf & Hx).
    exists (File.set_license_expr (build_license_expr (File.licenses f)) f).
    split; [|done].
    apply list_elem_of_fmap. exists f. split; [done|]. by apply elem_of_sorted_by.
Qed.

End FilePasses.

Lemma files_sorted_witness :
  Sorted String.le (File.file_path <$> Data.files sample_output).
Proof.
  apply (@files_sorted sample_env sample_input). apply sample_pre_process.
Defined.

Lemma files_kept_witness :
  length (Data.files sample_output) = length (Data.files sample_input)
  ∧ ∀ path,
      file_input <$>
        List.filter (λ f, bool_decide (File.file_path f = path))
          (Data.files sample_output)
      = file_input <$>
          List.filter (λ f, bool_decide (File.file_path f = path))
            (Data.files sample_input).
Proof. apply (@files_kept sample_env). apply sample_pre_process. Defined.

Lemma file_ids_sequential_witness :
  (∀ i file, Data.files sample_output !! i = Some file →
     File.spdx_id file = "SPDXRef-File-" +:+ Py.str_of_nat (i + 1))
  ∧ NoDup (File.spdx_id <$> Data.files sample_output).
Proof.
  apply (@file_ids_sequential sample_env sample_input). apply sample_pre_process.
Defined.

Lemma detected_pre_process :
  @pre_process sample_env detected_input = Some detected_output.
Proof. by vm_compute. Qed.

Lemma detectors_collected_witness :
  "scancode" ∈ Data.detectors detected_output ↔
  "scancode" ∈ Data.detectors detected_input
  ∨ ∃ file, file ∈ Data.files detected_input ∧ "scancode" ∈ File.detectors file.
Proof.
  apply (@detectors_collected sample_env detected_input detected_output).
  apply detected_pre_process.
Defined.


(** *** The package passes (lines 93-128) *)

Section PackagePasses.
Context {env : Env}.
Implicit Types (packages : list (string * Package.t)).

Lemma dict_set_lookup {V} (d : list (string * V)) k v i k' v' :
  NoDup (dict_keys d) → k ∈ dict_keys d → d !! i = Some (k', v') →
  dict_set k v d !! i = Some (if decide (k' = k) then (k', v) else (k', v')).
Proof.
  unfold dict_keys. revert i.
  induction d as [|[k0 v0] d IH]; intros i Hnd Hin Hi; [done|].
  apply NoDup_cons in Hnd as [Hk0 Hnd]. cbn [dict_set].
  destruct i as [|i].
  - apply (inj Some) in Hi. simplify_eq. by case_decide.
  - change (d !! i = Some (k', v')) in Hi.
    destruct (decide (k0 = k)) as [->|Hk].
    + change (d !! i = Some (if decide (k' = k) then (k', v) else (k', v'))).
      rewrite Hi. rewrite decide_False; [done|]. intros ->. apply Hk0.
      apply list_elem_of_fmap. exists (k, v'). split; [done|].
      by eapply list_elem_of_lookup_2.
    + change (dict_set k v d !! i = Some (if decide (k' = k) then (k', v) else (k', v'))).
      apply IH; [done| |done].
      apply elem_of_cons in Hin as [?|?]; [by subst|done].
Qed.

Lemma assign_package_id_lookup c packages k c' packages' i k' p :
  NoDup (dict_keys packages) →
  assign_package_id (c, packages) k = Some (c', packages') →
  packages !! i = Some (k', p) →
  packages' !! i = Some (k', if decide (k' = k) then assigned c p else p).
Proof.
  intros Hnd Hstep Hi. unfold assign_package_id in Hstep.
  destruct (dict_get packages k) as [q|] eqn:Hq; [|done].
  cbn [mbind option_bind] in Hstep. injection Hstep as <- <-.
  rewrite (dict_set_lookup _ _ _ _ _ _ Hnd) by
    (try done; apply dict_get_is_Some; by eexists).
  case_decide as Hk; [|done]. subst k'.
  assert (q = p) as -> by (rewrite (dict_get_lookup _ _ _ _ Hnd Hi) in Hq; congruence).
  do 2 f_equal. unfold assigned. by destruct p as [? ? ? ? ? [r|] ?].
Qed.

(** The identifier pass, position by position. *)
Lemma foldlM_assign_package_id_lookup ids : ∀ c packages c' packages',
  NoDup (dict_keys packages) → NoDup ids →
  foldlM assign_package_id (c, packages) ids = Some (c', packages') →
  ∀ i k p, packages !! i = Some (k, p) →
    (∀ j, ids !! j = Some k → packages' !! i = Some (k, assigned (c + j) p))
    ∧ (k ∉ ids → packages' !! i = Some (k, p)).
Proof.
  induction ids as [|k0 ids IH]; intros c packages c' packages' Hnd Hids Hfold i k p Hi.
  - cbn [foldlM] in Hfold. injection Hfold as <- <-. by split.
  - apply NoDup_cons in Hids as [Hk0 Hids]. cbn [foldlM] in Hfold.
    destruct (assign_package_id (c, packages) k0) as [[c1 pk1]|] eqn:Hstep; [|done].
    cbn [mbind option_bind] in Hfold.
    pose proof (assign_package_id_lookup _ _ _ _ _ _ _ _ Hnd Hstep Hi) as Hi1.
    assert (c1 = S c ∧ dict_keys pk1 = dict_keys packages) as [-> Hkeys].
    { unfold assign_package_id in Hstep.
      destruct (dict_get packages k0) eqn:Hq; [|done].
      cbn [mbind option_bind] in Hstep. injection Hstep as <- <-. split; [done|].
      apply dict_keys_set_in, dict_get_is_Some. by eexists. }
    assert (NoDup (dict_keys pk1)) as Hnd1 by (by rewrite Hkeys).
    destruct (IH _ _ _ _ Hnd1 Hids Hfold _ _ _ Hi1) as [Hin Hout]. split.
    + intros [|j] Hj; cbn [lookup list_lookup] in Hj.
      * injection Hj as ->. rewrite decide_True in Hi1, Hout by done.
        rewrite Nat.add_0_r. by apply Hout.
      * rewrite decide_False in Hin; [|intros ->; apply Hk0; by eapply list_elem_of_lookup_2].
        replace (c + S j) with (S c + j) by lia. by apply Hin.
    + intros [Hne Hk]%not_elem_of_cons. rewrite decide_False in Hout by done.
      by apply Hout.
Qed.

(** Fields the friendly-information loop leaves alone or sets once. *)
Lemma add_suffixes_fields n p :
  Package.id (add_suffixes n p) = Package.id p
  ∧ Package.url (add_suffixes n p) = Package.url p
  ∧ Package.browser_url (add_suffixes n p) = Package.browser_url p
  ∧ Package.external_refs (add_suffixes n p) = Package.external_refs p.
Proof. unfold add_suffixes. by destruct (Package.name p), (Package.version p). Qed.

Lemma normalized_fields p :
  Package.id (normalized p) = Package.id p
  ∧ Package.url (normalized p) = Package.url p
  ∧ Package.external_refs (normalized p) = Package.external_refs p
  ∧ Package.version (normalized p)
    = Some (default "NoneVersion" (Package.version p))
  ∧ Package.browser_url (normalized p)
    = match Package.browser_url p, Package.url p with
      | None, Some url => if Py.startswith url "http" then Some url else None
      | b, _ => b
      end.
Proof.
  unfold normalized, default_browser_url, fallback_name, derive_name,
    default_version.
  destruct p as [i [nm|] [v|] [u|] [b|] r s]; cbn;
    repeat (case_match; cbn); done.
Qed.

Lemma name_step_no_url packages M i p :
  get_obj packages i = Some p → Package.url p = None →
  name_step (packages, M) i = Some (set_obj i (default_version p) packages, M).
Proof.
  intros Hp Hu. unfold name_step. rewrite Hp. cbn [mbind option_bind].
  by rewrite default_version_url, Hu.
Qed.

Lemma name_step_no_url_inv i packages0 packages M packages' M' :
  i < length packages0 →
  names_inv i packages0 packages M →
  no_url_inv i packages0 packages M →
  name_step (packages, M) i = Some (packages', M') →
  no_url_inv (S i) packages0 packages' M'.
Proof.
  intros Hi (Hkeys & Hobjs & Hmap) [Hurl Hold] Hstep.
  assert (length packages = length packages0) as Hlen
    by (by rewrite <-(length_fmap fst packages), Hkeys, length_fmap).
  destruct (get_obj_lt packages0 i Hi) as [p0 Hp0].
  destruct (Hobjs _ _ Hp0) as (p & Hp & Hpi).
  rewrite decide_False in Hpi by lia. subst p.
  destruct (Package.url p0) as [url|] eqn:Hu.
  - (* the package has a url *)
    destruct (normalized_version p0) as [v Hv].
    assert (is_Some (Package.name (normalized p0))) as [name Hname].
    { rewrite (normalized_with_url _ _ Hu), default_browser_url_name.
      apply fallback_name_name. }
    assert (∀ n, is_Some (Package.url (add_suffixes n (normalized p0)))) as Hnu.
    { intros n. destruct (add_suffixes_fields n (normalized p0)) as (_ & -> & _).
      destruct (normalized_fields p0) as (_ & -> & _). by rewrite Hu. }
    destruct (M !! name) as [e|] eqn:He.
    + destruct (Hmap _ _ He) as (Hei & pe & Hpe & Hpen & [ve Hpev]).
      rewrite (name_step_taken _ _ _ _ _ _ _ _ _ _ Hp Hu Hname Hv He
                 ltac:(lia) Hpe Hpen Hpev) in Hstep.
      injection Hstep as <- <-.
      destruct (Hurl _ _ He) as (pe' & Hpe' & Hpeu).
      assert (pe' = pe) as -> by congruence.
      split.
      * intros nm a Ha.
        destruct (decide (a = i)) as [->|Hai].
        { rewrite get_set_obj_eq by (rewrite length_set_obj; lia). eauto. }
        rewrite get_set_obj_ne by done.
        destruct (decide (a = e)) as [->|Hae].
        { rewrite get_set_obj_eq by lia. eexists. split; [done|].
          by destruct pe. }
        rewrite get_set_obj_ne by done.
        apply lookup_insert_Some in Ha as [[_ <-]|[_ Ha]]; [done|].
        apply lookup_insert_Some in Ha as [[_ <-]|[_ Ha]]; [done|].
        apply lookup_delete_Some in Ha as [_ Ha]. eauto.
      * intros j q0 Hj Hq0 Hq0u.
        assert (j ≠ i) by (intros ->; congruence).
        rewrite get_set_obj_ne by done.
        assert (j ≠ e).
        { intros Heq. subst j. specialize (Hold _ _ Hei Hq0 Hq0u).
          rewrite Hold in Hpe. injection Hpe as <-.
          rewrite default_version_url, Hq0u in Hpeu. by destruct Hpeu. }
        rewrite get_set_obj_ne by done. apply Hold; [lia|done..].
    + rewrite (name_step_free _ _ _ _ _ _ Hp Hu Hname He) in Hstep.
      injection Hstep as <- <-. split.
      * intros nm a Ha.
        destruct (decide (a = i)) as [->|Hai].
        { rewrite get_set_obj_eq by lia. eexists. split; [done|].
          specialize (Hnu 0). by rewrite add_suffixes_0 in Hnu. }
        rewrite get_set_obj_ne by done.
        apply lookup_insert_Some in Ha as [[_ <-]|[_ Ha]]; [done|]. eauto.
      * intros j q0 Hj Hq0 Hq0u.
        assert (j ≠ i) by (intros ->; congruence).
        rewrite get_set_obj_ne by done. apply Hold; [lia|done..].
  - (* no url: lines 111-112 *)
    rewrite (name_step_no_url _ _ _ _ Hp Hu) in Hstep.
    injection Hstep as <- <-. split.
    + intros nm a Ha. destruct (Hurl _ _ Ha) as (pa & Hpa & Hpau).
      assert (a ≠ i) by (intros ->; rewrite Hp in Hpa; injection Hpa as <-;
                         rewrite Hu in Hpau; by destruct Hpau).
      rewrite get_set_obj_ne by done. eauto.
    + intros j q0 Hj Hq0 Hq0u.
      destruct (decide (j = i)) as [->|Hji].
      * rewrite get_set_obj_eq by lia. congruence.
      * rewrite get_set_obj_ne by done. apply Hold; [lia|done..].
Qed.

Lemma foldlM_name_step_no_url n : ∀ i packages0 packages M packages' M',
  i + n = length packages0 →
  names_inv i packages0 packages M →
  no_url_inv i packages0 packages M →
  foldlM name_step (packages, M) (seq i n) = Some (packages', M') →
  no_url_inv (length packages0) packages0 packages' M'.
Proof.
  induction n as [|n IH]; intros i packages0 packages M packages' M' Hlen Hinv Hno Hfold.
  - cbn in Hfold. injection Hfold as <- <-. by replace (length packages0) with i by lia.
  - cbn [seq foldlM] in Hfold.
    destruct (name_step_inv i packages0 packages M ltac:(lia) Hinv)
      as (pk1 & M1 & Hstep & Hinv1).
    rewrite Hstep in Hfold. cbn [mbind option_bind] in Hfold.
    eapply (IH (S i)); [lia|done| |done].
    eapply name_step_no_url_inv; [|done..]. lia.
Qed.

(** Lines 109-112 for a package without url: only the version default. *)
Lemma friendly_packages_no_url packages packages' M j p :
  friendly_packages packages = Some (packages', M) →
  get_obj packages j = Some p → Package.url p = None →
  get_obj packages' j = Some (default_version p).
Proof.
  intros Hf Hp Hu.
  eapply (foldlM_name_step_no_url (length packages) 0 packages packages ∅) in Hf
    as [_ Hold]; [|done|apply names_inv_init|].
  - eapply Hold; [|done..]. by eapply get_obj_Some_lt.
  - split; [intros ?? Hm; by rewrite lookup_empty in Hm|intros; lia].
Qed.

End PackagePasses.

Section PackageResults.
Context {env : Env}.

Lemma NoDup_ids_of d :
  NoDup (dict_keys (Data.packages d)) → NoDup (ids_of d).
Proof. intros Hnd. unfold ids_of, Py.sorted. by rewrite sorted_by_Permutation. Qed.

(** The package stored at a position when [pre_process] returns. *)
Lemma packages_at d d' i k p :
  pre_process d = Some d' →
  Data.packages d !! i = Some (k, p) →
  ∃ p1 n,
    id_assigned p p1
    ∧ Data.packages d' !! i = Some (k, add_suffixes n (normalized p1))
    ∧ (Package.url p = None → n = 0)
    ∧ (NoDup (dict_keys (Data.packages d)) →
         ∃ j, ids_of d !! j = Some k ∧ p1 = assigned (1 + j) p).
Proof.
  intros Hd Hi.
  destruct (pre_process_unfold d) as (pk2 & M & (pk1 & Hfold & Hfr) & _ & _ & _ & Heq).
  rewrite Heq in Hd. cbn zeta in Hd.
  destruct (sort_licenses _) as [ls|]; [|done].
  cbn [mbind option_bind] in Hd. injection Hd as <-. cbn [Data.packages].
  destruct (foldlM_assign_package_id (ids_of d) 1 (Data.packages d))
    as (pk1' & Hfold' & Hrel & _).
  { intros k0. apply elem_of_sorted. }
  assert (pk1' = pk1) as -> by congruence.
  destruct (objs_rel_lookup _ _ _ _ _ _ Hrel Hi) as (p1 & Hi1 & Hp1).
  destruct (friendly_packages_inv pk1) as (pk2' & M' & Hfr' & Hinv).
  assert (pk2' = pk2) as -> by congruence.
  destruct (objs_rel_lookup _ _ _ _ _ _ (names_inv_objs_rel _ _ _ Hinv) Hi1)
    as (p2 & Hi2 & n & ->).
  assert (Package.url p1 = Package.url p) as Hu1
    by (destruct Hp1 as (s & r & ->); done).
  exists p1. destruct (Package.url p) as [url|] eqn:Hu.
  - exists n. split; [done|]. split; [done|]. split; [done|].
    intros Hnd.
    assert (k ∈ ids_of d) as [j Hj]%list_elem_of_lookup.
    { apply elem_of_sorted, list_elem_of_fmap. exists (k, p). split; [done|].
      by eapply list_elem_of_lookup_2. }
    exists j. split; [done|].
    destruct (foldlM_assign_package_id_lookup _ _ _ _ _ Hnd (NoDup_ids_of _ Hnd)
                Hfold _ _ _ Hi) as [Hin _].
    specialize (Hin _ Hj). congruence.
  - exists 0. split; [done|]. split.
    { assert (get_obj pk2 i = Some (default_version p1)) as Hg.
      { eapply friendly_packages_no_url; [done| |done].
        unfold get_obj. by rewrite Hi1. }
      unfold get_obj in Hg. rewrite Hi2 in Hg. cbn in Hg. injection Hg as Hg.
      rewrite Hi2, Hg, add_suffixes_0, normalized_no_url; [done|].
      by rewrite default_version_url. }
    split; [done|]. intros Hnd.
    assert (k ∈ ids_of d) as [j Hj]%list_elem_of_lookup.
    { apply elem_of_sorted, list_elem_of_fmap. exists (k, p). split; [done|].
      by eapply list_elem_of_lookup_2. }
    exists j. split; [done|].
    destruct (foldlM_assign_package_id_lookup _ _ _ _ _ Hnd (NoDup_ids_of _ Hnd)
                Hfold _ _ _ Hi) as [Hin _].
    specialize (Hin _ Hj). congruence.
Qed.

(** X5. [data.packages_sorted] lists the keys of [data.packages], each as
    often as the dict holds it, in ascending order; the dict itself keeps its
    keys and their order. *)
Theorem packages_sorted_keys d d' :
  pre_process d = Some d' →
  Sorted String.le (Data.packages_sorted d')
  ∧ Data.packages_sorted d' ≡ₚ dict_keys (Data.packages d)
  ∧ dict_keys (Data.packages d') = dict_keys (Data.packages d).
Proof.
  intros (_ & _ & _ & -> & Hrel & _)%pre_process_Some.
  split; [|split].
  - apply (sorted_by_Sorted id).
  - apply sorted_by_Permutation.
  - by eapply objs_rel_keys.
Qed.

(** X6. Packages are numbered from 1 in the order of
    [data.packages_sorted]: the package whose key stands at index [j] there
    gets the identifier [SPDXRef-Package-(j+1)]. *)
Theorem package_ids_sequential d d' :
  NoDup (dict_keys (Data.packages d)) →
  pre_process d = Some d' →
  ∀ j k, Data.packages_sorted d' !! j = Some k →
    ∃ p', dict_get (Data.packages d') k = Some p'
          ∧ Package.spdx_id p'
            = Some ("SPDXRef-Package-" +:+ Py.str_of_nat (j + 1)).
Proof.
  intros Hnd Hd j k Hj.
  pose proof Hd as (_ & _ & _ & Hsorted & _ & Hspdx & _)%pre_process_Some.
  rewrite Hsorted in Hj.
  destruct (Hspdx k) as (p' & j' & Hp' & Hs & Hj').
  { eapply elem_of_sorted, list_elem_of_lookup_2, Hj. }
  assert (j' = j) as -> by (eapply NoDup_lookup; [by apply NoDup_ids_of|done..]).
  exists p'. split; [done|]. rewrite Hs. by rewrite Nat.add_comm.
Qed.

(** X7. Every package stays where it was in [data.packages], under the same
    key, with its [id] and [url]; its [version] is the old one, or
    ['NoneVersion'] when there was none, and its [external_refs] is the old
    list, or an empty list when there was none. *)
Theorem packages_kept d d' :
  NoDup (dict_keys (Data.packages d)) →
  pre_process d = Some d' →
  length (Data.packages d') = length (Data.packages d)
  ∧ ∀ i k p, Data.packages d !! i = Some (k, p) →
      ∃ p', Data.packages d' !! i = Some (k, p')
            ∧ Package.id p' = Package.id p
            ∧ Package.url p' = Package.url p
            ∧ Package.version p'
              = Some (default "NoneVersion" (Package.version p))
            ∧ Package.external_refs p'
              = Some (default [] (Package.external_refs p)).
Proof.
  intros Hnd Hd. split.
  { pose proof Hd as (_ & _ & _ & _ & Hrel & _)%pre_process_Some.
    symmetry. by eapply Forall2_length. }
  intros i k p Hi.
  destruct (packages_at _ _ _ _ _ Hd Hi) as (p1 & n & _ & Hi' & _ & Hj).
  destruct (Hj Hnd) as (j & _ & ->).
  eexists. split; [done|].
  destruct (add_suffixes_fields n (normalized (assigned (1 + j) p)))
    as (-> & -> & _ & ->).
  rewrite add_suffixes_version.
  by destruct (normalized_fields (assigned (1 + j) p)) as (-> & -> & -> & -> & _).
Qed.

(** X8. [browser_url] is set to the url exactly when it was unset and the
    url starts with [http]; a [browser_url] that was set is kept, and a
    package without url or with another scheme keeps none. *)
Theorem browser_url_defaulted d d' i k p :
  pre_process d = Some d' →
  Data.packages d !! i = Some (k, p) →
  ∃ p', Data.packages d' !! i = Some (k, p')
        ∧ Package.browser_url p'
          = match Package.browser_url p, Package.url p with
            | None, Some url =>
                if Py.startswith url "http" then Some url else None
            | b, _ => b
            end.
Proof.
  intros Hd Hi.
  destruct (packages_at _ _ _ _ _ Hd Hi) as (p1 & n & (s & r & ->) & Hi' & _).
  eexists. split; [done|].
  destruct (add_suffixes_fields n
              (normalized (Package.set_external_refs r (Package.set_spdx_id s p))))
    as (_ & _ & -> & _).
  by destruct (normalized_fields
                 (Package.set_external_refs r (Package.set_spdx_id s p)))
    as (_ & _ & _ & _ & ->).
Qed.

(** X9. A package without url is skipped by the naming code: its [name]
    stays what it was, unset included, and no version suffix is appended,
    whatever names the other packages bear; its [browser_url] is not
    touched either. *)
Theorem package_without_url d d' i k p :
  pre_process d = Some d' →
  Data.packages d !! i = Some (k, p) →
  Package.url p = None →
  ∃ p', Data.packages d' !! i = Some (k, p')
        ∧ Package.name p' = Package.name p
        ∧ Package.browser_url p' = Package.browser_url p.
Proof.
  intros Hd Hi Hu.
  destruct (packages_at _ _ _ _ _ Hd Hi) as (p1 & n & (s & r & ->) & Hi' & Hn & _).
  rewrite (Hn Hu), add_suffixes_0, normalized_no_url in Hi'
    by (by rewrite default_version_url).
  eexists. split; [done|]. unfold default_version. cbn.
  by destruct (Package.version p).
Qed.

(** X10. A package with a url whose [name] is set keeps that name as the
    stem of its final name: collision resolution only appends
    ['-' + version], [n] times, with the final version. *)
Theorem package_name_kept d d' i k p url name :
  pre_process d = Some d' →
  Data.packages d !! i = Some (k, p) →
  Package.url p = Some url → Package.name p = Some name →
  ∃ p' n,
    Data.packages d' !! i = Some (k, p')
    ∧ Package.name p'
      = Some (suffixed n (default "NoneVersion" (Package.version p)) name).
Proof.
  intros Hd Hi Hu Hname.
  destruct (packages_at _ _ _ _ _ Hd Hi) as (p1 & n & (s & r & ->) & Hi' & _).
  eexists _, n. split; [done|].
  unfold add_suffixes, normalized, default_browser_url, fallback_name,
    derive_name, default_version.
  destruct p as [pid nm [v|] u [b|] er sp]; cbn in *; subst;
    repeat (case_match; cbn in *; simplify_eq); done.
Qed.

(** X11. A package with a url, no [name] and no [github.com] in the url is
    named after its [id]; after its url when the [id] is empty; and
    ['NoneName'] when both are empty.  Collision resolution may append
    ['-' + version] to that stem. *)
Theorem package_name_fallback d d' i k p url :
  pre_process d = Some d' →
  Data.packages d !! i = Some (k, p) →
  Package.url p = Some url → Package.name p = None →
  Py.find "github.com" url = None →
  ∃ p' n,
    Data.packages d' !! i = Some (k, p')
    ∧ Package.name p'
      = Some (suffixed n (default "NoneVersion" (Package.version p))
                (if bool_decide (Package.id p ≠ "") then Package.id p
                 else if bool_decide (url ≠ "") then url
                 else "NoneName")).
Proof.
  intros Hd Hi Hu Hname Hfind.
  destruct (packages_at _ _ _ _ _ Hd Hi) as (p1 & n & (s & r & ->) & Hi' & _).
  eexists _, n. split; [done|].
  unfold add_suffixes, normalized, default_browser_url, fallback_name,
    derive_name, default_version.
  destruct p as [pid nm [v|] u [b|] er sp]; cbn in *; subst; rewrite Hfind; cbn;
    repeat (case_match; cbn in *; simplify_eq);
    repeat case_bool_decide; simplify_eq; done.
Qed.

End PackageResults.

Lemma named_pre_process :
  @pre_process sample_env named_input = Some named_output.
Proof. by vm_compute. Qed.

Lemma sample_packages_NoDup : NoDup (dict_keys (Data.packages sample_input)).
Proof. apply (bool_decide_unpack _). by vm_compute. Qed.

Lemma packages_sorted_keys_witness :
  Sorted String.le (Data.packages_sorted sample_output)
  ∧ Data.packages_sorted sample_output ≡ₚ dict_keys (Data.packages sample_input)
  ∧ dict_keys (Data.packages sample_output)
    = dict_keys (Data.packages sample_input).
Proof.
  apply (@packages_sorted_keys sample_env). apply sample_pre_process.
Defined.

Lemma package_ids_sequential_witness :
  ∃ p', dict_get (Data.packages sample_output) "nrf" = Some p'
        ∧ Package.spdx_id p' = Some ("SPDXRef-Package-" +:+ Py.str_of_nat (1 + 1)).
Proof.
  apply (@package_ids_sequential sample_env sample_input sample_output).
  - apply sample_packages_NoDup.
  - apply sample_pre_process.
  - reflexivity.
Defined.

Lemma packages_kept_witness :
  length (Data.packages sample_output) = length (Data.packages sample_input)
  ∧ ∀ i k p, Data.packages sample_input !! i = Some (k, p) →
      ∃ p', Data.packages sample_output !! i = Some (k, p')
            ∧ Package.id p' = Package.id p
            ∧ Package.url p' = Package.url p
            ∧ Package.version p'
              = Some (default "NoneVersion" (Package.version p))
            ∧ Package.external_refs p'
              = Some (default [] (Package.external_refs p)).
Proof.
  apply (@packages_kept sample_env).
  - apply sample_packages_NoDup.
  - apply sample_pre_process.
Defined.

Lemma browser_url_defaulted_witness :
  ∃ p', Data.packages sample_output !! 2 = Some ("empty", p')
        ∧ Package.browser_url p' = Some "http://example.com".
Proof.
  apply (@browser_url_defaulted sample_env sample_input sample_output 2 "empty"
           (sample_package "empty" None None (Some "http://example.com"))).
  - apply sample_pre_process.
  - reflexivity.
Defined.

Lemma package_without_url_witness :
  ∃ p', Data.packages sample_output !! 1 = Some ("nrf", p')
        ∧ Package.name p' = Some "sdk-nrf"
        ∧ Package.browser_url p' = None.
Proof.
  apply (@package_without_url sample_env sample_input sample_output 1 "nrf"
           (sample_package "nrf" (Some "sdk-nrf") None None)).
  - apply sample_pre_process.
  - reflexivity.
  - reflexivity.
Defined.

Lemma package_name_kept_witness :
  ∃ p' n,
    Data.packages named_output !! 1 = Some ("b", p')
    ∧ Package.name p' = Some (suffixed n "NoneVersion" "libfoo").
Proof.
  apply (@package_name_kept sample_env named_input named_output 1 "b"
           (sample_package "b" (Some "libfoo") None
              (Some "https://example.org/libfoo"))
           "https://example.org/libfoo" "libfoo").
  - apply named_pre_process.
  - reflexivity.
  - reflexivity.
  - reflexivity.
Defined.

Lemma package_name_fallback_witness :
  ∃ p' n,
    Data.packages sample_output !! 2 = Some ("empty", p')
    ∧ Package.name p' = Some (suffixed n "NoneVersion" "empty").
Proof.
  apply (@package_name_fallback sample_env sample_input sample_output 2 "empty"
           (sample_package "empty" None None (Some "http://example.com"))
           "http://example.com").
  - apply sample_pre_process.
  - reflexivity.
  - reflexivity.
  - reflexivity.
  - reflexivity.
Defined.


(** *** The order of [data.licenses_sorted] (lines 74-91) *)

Section LicenseOrder.
Context {env : Env}.
Implicit Types (m : gmap string (option LicenseEntry)).

Lemma lic_before_trans m : Transitive (lic_before m).
Proof.
  intros a b c (ka & kb & Ha & Hb & Hab & Hne) (kb' & kc & Hb' & Hc & Hbc & Hne').
  assert (kb' = kb) as -> by congruence.
  exists ka, kc. split; [done|]. split; [done|]. split; [by etrans|].
  intros ->. apply Hne. by apply (anti_symm String.le).
Qed.

Lemma mapM_keyed m ids keyed :
  mapM (λ id, (λ k, (k, id)) <$> lic_reorder m id) ids = Some keyed →
  keyed.*2 = ids ∧ Forall (λ kx, lic_reorder m kx.2 = Some kx.1) keyed.
Proof.
  intros Hk%mapM_Some. induction Hk as [|id [k x] ids keyed Hid Hk [IH1 IH2]];
    [by split|].
  destruct (lic_reorder m id) as [k'|] eqn:Hr; [|done]. cbn in Hid.
  injection Hid as <- <-. cbn. split; [by f_equal|]. by constructor.
Qed.

Lemma Sorted_keyed m (keyed : list (string * string)) :
  NoDup keyed.*2 →
  Forall (λ kx, lic_reorder m kx.2 = Some kx.1) keyed →
  Sorted (key_le fst) keyed → Sorted (lic_before m) keyed.*2.
Proof.
  intros Hnd Hall Hs. induction Hs as [|[k x] l Hl IH Hx]; cbn; [constructor|].
  apply Forall_cons in Hall as [Hkx Hall]. apply NoDup_cons in Hnd as [Hx' Hnd].
  constructor; [by apply IH|].
  destruct Hx as [|[k' y] l Hxy]; cbn; constructor.
  apply Forall_cons in Hall as [Hky _]. cbn in *.
  exists k, k'. split; [done|]. split; [done|]. split; [done|].
  intros ->. apply Hx'. rewrite (lic_reorder_inj _ _ _ _ Hkx Hky).
  apply list_elem_of_here.
Qed.

(** [sorted(data.licenses.keys(), key=lic_reorder)] *)
Lemma sort_licenses_spec m ls :
  sort_licenses m = Some ls →
  ls ≡ₚ elements (dom m) ∧ StronglySorted (lic_before m) ls.
Proof.
  unfold sort_licenses. intros Hs.
  destruct (mapM _ _) as [keyed|] eqn:Hk; [|done].
  cbn [mbind option_bind] in Hs. injection Hs as <-.
  destruct (mapM_keyed _ _ _ Hk) as [Hids Hall].
  assert ((Py.sorted_by fst keyed).*2 ≡ₚ elements (dom m)) as Hperm.
  { by rewrite sorted_by_Permutation, Hids. }
  split; [done|]. apply Sorted_StronglySorted; [apply lic_before_trans|].
  apply Sorted_keyed.
  - rewrite Hperm. apply NoDup_elements.
  - apply Forall_forall. intros kx Hkx%elem_of_sorted_by.
    by eapply Forall_forall in Hall.
  - apply sorted_by_Sorted.
Qed.

Lemma StronglySorted_lookup {A} (R : relation A) l i j x y :
  StronglySorted R l → i < j → l !! i = Some x → l !! j = Some y → R x y.
Proof.
  intros Hs. revert i j. induction Hs as [|z l Hl IH Hz]; intros i j Hij Hi Hj;
    [done|].
  destruct j as [|j]; [lia|]. cbn in Hj. destruct i as [|i]; cbn in Hi.
  - injection Hi as ->. eapply Forall_forall in Hz; [done|].
    by eapply list_elem_of_lookup_2.
  - eapply (IH i j); [lia|done..].
Qed.

(** The first character of a sort key decides. *)
Lemma le_String_lt ca cb a b :
  Ascii.compare ca cb = Lt →
  String.le (String ca a) (String cb b) ∧ ¬ String.le (String cb b) (String ca a).
Proof.
  intros Hc. unfold String.le, String.leb. cbn [String.compare].
  rewrite Hc. split; [exact I|].
  rewrite Ascii.compare_antisym, Hc. cbn. by intros [].  
Qed.

Lemma lic_reorder_class m id k :
  lic_reorder m id = Some k → id ≠ "" →
  ∃ c, k = String c id ∧ Ascii.compare "A" c = Lt.
Proof.
  intros Hk Hid. unfold lic_reorder in Hk.
  destruct (m !! id) as [lic|]; [|done].
  cbn [mbind option_bind] in Hk. rewrite bool_decide_eq_false_2 in Hk by done.
  destruct lic as [lic|]; [|done]. cbn [mbind option_bind] in Hk.
  destruct (is_expr lic), (custom lic), (Py.startswith id "LicenseRef-");
    injection Hk as <-; eexists; split; reflexivity.
Qed.

Lemma pre_process_licenses_sorted d d' :
  pre_process d = Some d' →
  Data.licenses_sorted d' ≡ₚ elements (dom (Data.licenses d'))
  ∧ StronglySorted (lic_before (Data.licenses d')) (Data.licenses_sorted d').
Proof.
  intros (_ & _ & Hsort & _)%pre_process_Some. by apply sort_licenses_spec.
Qed.

(** X12. [data.licenses_sorted] lists every key of the new [data.licenses]
    exactly once, and nothing else. *)
Theorem licenses_sorted_keys d d' :
  pre_process d = Some d' →
  NoDup (Data.licenses_sorted d')
  ∧ length (Data.licenses_sorted d') = size (Data.licenses d')
  ∧ ∀ k, k ∈ Data.licenses_sorted d' ↔ k ∈ dom (Data.licenses d').
Proof.
  intros [Hperm _]%pre_process_licenses_sorted. split; [|split].
  - rewrite Hperm. apply NoDup_elements.
  - rewrite Hperm. rewrite <-size_dom. done.
  - intros k. rewrite Hperm. apply elem_of_elements.
Qed.

(** X13. [data.licenses_sorted] is in strictly ascending order of the keys
    that [lic_reorder] computes: of two entries, the one listed first has
    the smaller key. *)
Theorem licenses_sorted_order d d' :
  pre_process d = Some d' →
  ∀ i j a b,
    i < j →
    Data.licenses_sorted d' !! i = Some a →
    Data.licenses_sorted d' !! j = Some b →
    lic_before (Data.licenses d') a b.
Proof.
  intros [_ Hs]%pre_process_licenses_sorted i j a b.
  by apply StronglySorted_lookup.
Qed.

(** X14. The empty identifier, which stands for files without license, is
    listed first whenever it is in the catalog. *)
Theorem empty_license_first d d' :
  pre_process d = Some d' →
  "" ∈ dom (Data.licenses d') →
  Data.licenses_sorted d' !! 0 = Some "".
Proof.
  intros Hd Hin. pose proof Hd as [Hperm Hs]%pre_process_licenses_sorted.
  assert ("" ∈ Data.licenses_sorted d') as [j Hj]%list_elem_of_lookup
    by (by rewrite Hperm, elem_of_elements).
  destruct j as [|j]; [done|].
  destruct (Data.licenses_sorted d' !! 0) as [a|] eqn:Ha.
  2:{ apply lookup_ge_None in Ha. apply lookup_lt_Some in Hj. lia. }
  destruct (StronglySorted_lookup _ _ 0 (S j) _ _ Hs ltac:(lia) Ha Hj)
    as (ka & kb & Hka & Hkb & Hle & Hne).
  destruct (decide (a = "")) as [->|Hne']; [done|].
  destruct (lic_reorder_class _ _ _ Hka Hne') as (c & -> & Hc).
  apply elem_of_dom in Hin as [e He].
  unfold lic_reorder in Hkb. rewrite He in Hkb. cbn in Hkb. injection Hkb as <-.
  by destruct (le_String_lt "A" c "" a Hc) as [_ []].
Qed.

(** X15. The first character of the key decides the order: an entry whose
    key starts with the lower letter comes first, whatever the identifiers
    are.  With the letters of [lic_reorder], custom expressions (B) come
    before custom licenses (C), these before [LicenseRef-] licenses (D),
    these before the other expressions (E), and the other licenses (F) come
    last. *)
Theorem licenses_sorted_classes d d' i j a b ca cb :
  pre_process d = Some d' →
  Data.licenses_sorted d' !! i = Some a →
  Data.licenses_sorted d' !! j = Some b →
  lic_reorder (Data.licenses d') a = Some (String ca a) →
  lic_reorder (Data.licenses d') b = Some (String cb b) →
  Ascii.compare ca cb = Lt →
  i < j.
Proof.
  intros Hd Hi Hj Ha Hb Hc.
  pose proof Hd as [_ Hs]%pre_process_licenses_sorted.
  destruct (le_String_lt ca cb a b Hc) as [_ Hnle].
  destruct (decide (i < j)) as [|Hij]; [done|]. exfalso.
  destruct (decide (i = j)) as [->|Hne].
  - assert (a = b) as -> by congruence.
    assert (ca = cb) as -> by congruence.
    by apply Hnle.
  - destruct (StronglySorted_lookup _ _ j i _ _ Hs ltac:(lia) Hj Hi)
      as (kb & ka & Hkb & Hka & Hle & _).
    rewrite Hb in Hkb. rewrite Ha in Hka.
    injection Hkb as <-. injection Hka as <-. done.
Qed.

(** X16. [pre_process] raises in one case only: the catalog it has built
    stores [None] under an identifier other than the empty one, which makes
    [lic_reorder] read an attribute of [None]. *)
Theorem pre_process_raises d :
  pre_process d = None ↔
  ∃ k, k ≠ ""
       ∧ collect_licenses (Data.licenses d)
           (set_license_exprs (sort_files (Data.files d))) !! k = Some None.
Proof.
  destruct (pre_process_unfold d) as (pk2 & M & _ & _ & _ & _ & ->).
  cbn zeta. set (m := collect_licenses _ _).
  split.
  - destruct (sort_licenses m) as [ls|] eqn:Hs; [done|]. intros _.
    unfold sort_licenses in Hs.
    destruct (mapM _ _) as [keyed|] eqn:Hk; [done|].
    apply mapM_None_1, Exists_exists in Hk as (id & Hid & Hnone).
    apply elem_of_elements, elem_of_dom in Hid as [e He].
    exists id. unfold lic_reorder in Hnone. rewrite He in Hnone.
    cbn [mbind option_bind] in Hnone.
    case_bool_decide as Hempty; [done|].
    destruct e as [e|]; [|done]. cbn [mbind option_bind] in Hnone.
    by destruct (is_expr e), (custom e), (Py.startswith id "LicenseRef-").
  - intros (k & Hk & Hm).
    destruct (sort_licenses m) as [ls|] eqn:Hs; [|done]. exfalso.
    unfold sort_licenses in Hs.
    destruct (mapM _ _) as [keyed|] eqn:Hkeyed; [|done].
    assert (is_Some (lic_reorder m k)) as [key Hkey].
    { assert (is_Some (mapM (λ id, (λ k, (k, id)) <$> lic_reorder m id)
                         (elements (dom m)))) as Hall by (by eexists).
      apply mapM_is_Some in Hall. eapply Forall_forall in Hall.
      - cbn in Hall. by apply fmap_is_Some in Hall.
      - apply elem_of_elements, elem_of_dom. by eexists. }
    unfold lic_reorder in Hkey. rewrite Hm in Hkey.
    cbn [mbind option_bind] in Hkey.
    by rewrite bool_decide_eq_false_2 in Hkey.
Qed.

End LicenseOrder.

Lemma licenses_sorted_keys_witness :
  NoDup (Data.licenses_sorted sample_output)
  ∧ length (Data.licenses_sorted sample_output) = size (Data.licenses sample_output)
  ∧ ∀ k, k ∈ Data.licenses_sorted sample_output
         ↔ k ∈ dom (Data.licenses sample_output).
Proof.
  apply (@licenses_sorted_keys sample_env sample_input). apply sample_pre_process.
Defined.

Lemma licenses_sorted_order_witness :
  @lic_before sample_env (Data.licenses sample_output) "" "MIT".
Proof.
  apply (@licenses_sorted_order sample_env sample_input sample_output
           sample_pre_process 0 4).
  - lia.
  - reflexivity.
  - reflexivity.
Defined.

Lemma empty_license_first_witness :
  Data.licenses_sorted sample_output !! 0 = Some "".
Proof.
  apply (@empty_license_first sample_env sample_input sample_output).
  - apply sample_pre_process.
  - apply (bool_decide_unpack _). by vm_compute.
Defined.

Lemma licenses_sorted_classes_witness :
  Data.licenses_sorted sample_output !! 1
  = Some "(MIT OR BSD-3-CLAUSE) AND GPL-2.0"
  ∧ Data.licenses_sorted sample_output !! 2 = Some "BSD-3-CLAUSE"
  ∧ 1 < 2.
Proof.
  split; [reflexivity|]. split; [reflexivity|].
  apply (@licenses_sorted_classes sample_env sample_input sample_output 1 2
           "(MIT OR BSD-3-CLAUSE) AND GPL-2.0" "BSD-3-CLAUSE" "E" "F").
  - apply sample_pre_process.
  - reflexivity.
  - reflexivity.
  - by vm_compute.
  - by vm_compute.
  - reflexivity.
Defined.


(** *** The entries of the catalog (lines 41-72) *)

Section CatalogEntries.
Context {env : Env}.
Implicit Types (old used : gmap string (option LicenseEntry)).

Lemma register_id_entry old used id :
  register_id old used id
  = if bool_decide (id ∈ dom used) then used
    else <[id := license_entry old id]> used.
Proof.
  unfold register_id, license_entry. case_bool_decide; [done|].
  destruct (is_spdx_license id); [done|]. by destruct (old !! id).
Qed.

Lemma entry_origin_mono old files1 files2 k v :
  files1 ⊆ files2 → entry_origin old files1 k v → entry_origin old files2 k v.
Proof.
  intros Hsub [(? & ? & f & Hf & ?)|(? & f & Hf & ?)]; [left|right];
    repeat split; try done; exists f; split; auto.
Qed.

Lemma foldl_register_id_origin old files file ids : ∀ used,
  file ∈ files →
  ids ⊆ LicenseExprInfo.licenses (get_spdx_license_expr_info (File.license_expr file)) →
  (∀ k v, used !! k = Some v → entry_origin old files k v) →
  ∀ k v, foldl (register_id old) used ids !! k = Some v →
         entry_origin old files k v.
Proof.
  induction ids as [|id ids IH]; intros used Hfile Hids Hused; cbn [foldl]; [done|].
  apply IH; [done|set_solver|].
  intros k v. rewrite register_id_entry. case_bool_decide; [by apply Hused|].
  intros [[<- <-]|[_ Hk]]%lookup_insert_Some; [|by apply Hused].
  right. split; [done|]. exists file. split; [done|]. set_solver.
Qed.

Lemma register_file_origin old files used file :
  file ∈ files →
  (∀ k v, used !! k = Some v → entry_origin old files k v) →
  ∀ k v, register_file old used file !! k = Some v → entry_origin old files k v.
Proof.
  intros Hfile Hused. unfold register_file. case_bool_decide; [done|].
  apply (foldl_register_id_origin _ _ file); [done..|].
  intros k v.
  destruct (negb _ || negb _) eqn:Hneeds; [|by apply Hused].
  intros [[<- <-]|[_ Hk]]%lookup_insert_Some; [|by apply Hused].
  left. split; [done|]. split; [done|]. by exists file.
Qed.

Lemma foldl_register_file_origin old files0 files : ∀ used,
  files ⊆ files0 →
  (∀ k v, used !! k = Some v → entry_origin old files0 k v) →
  ∀ k v, foldl (register_file old) used files !! k = Some v →
         entry_origin old files0 k v.
Proof.
  induction files as [|f files IH]; intros used Hsub Hused; cbn [foldl]; [done|].
  apply IH; [set_solver|]. apply register_file_origin; [set_solver|done].
Qed.

Lemma collect_licenses_origin old files k v :
  collect_licenses old files !! k = Some v → entry_origin old files k v.
Proof.
  apply (foldl_register_file_origin old files files); [done|].
  intros k' v'. by rewrite lookup_empty.
Qed.

(** X17. Every entry of the new [data.licenses] is either the
    [LicenseExpr] built for a file's [license_expr] that is invalid or not a
    bare identifier, or the license entry of an identifier that the resolver
    reports for a file's [license_expr].  Such a license entry is the
    registry's for an SPDX identifier, whatever the old [data.licenses]
    held; for another identifier it is the old entry when there was one,
    else the registry's entry or a new [License] that bears the identifier
    as [id] and [friendly_id]. *)
Theorem catalog_entries d d' k v :
  pre_process d = Some d' →
  Data.licenses d' !! k = Some v →
  (v = Some (IsExpr (make_expr k (get_spdx_license_expr_info k)))
   ∧ needs_expr k = true
   ∧ ∃ file, file ∈ Data.files d' ∧ File.license_expr file = k)
  ∨ (v = (if is_spdx_license k then IsLicense <$> get_license k
          else match Data.licenses d !! k with
               | Some entry => entry
               | None =>
                   Some (IsLicense
                           (match get_license k with
                            | Some lic => lic
                            | None => License.set_ids k new_License
                            end))
               end)
     ∧ ∃ file, file ∈ Data.files d'
         ∧ k ∈ LicenseExprInfo.licenses
                 (get_spdx_license_expr_info (File.license_expr file))).
Proof.
  intros Hd Hk.
  pose proof Hd as (Hfiles & Hlic & _)%pre_process_Some.
  rewrite Hlic in Hk. apply collect_licenses_origin in Hk.
  assert (∀ e, (∃ file, file ∈ set_license_exprs (sort_files (Data.files d))
                        ∧ e (File.license_expr file))
               → ∃ file, file ∈ Data.files d' ∧ e (File.license_expr file)) as Hex.
  { intros e (f & Hf & He).
    assert (File.license_expr f ∈ File.license_expr <$> Data.files d') as Hin.
    { rewrite Hfiles, files_out_exprs. by apply list_elem_of_fmap_2. }
    apply list_elem_of_fmap in Hin as (f' & Heq & Hf').
    exists f'. split; [done|]. by rewrite <-Heq. }
  destruct Hk as [(? & ? & Hf)|(? & Hf)]; [left|right].
  - split; [done|]. split; [done|].
    by apply (Hex (λ e, e = k)).
  - split; [done|].
    by apply (Hex (λ e, k ∈ LicenseExprInfo.licenses (get_spdx_license_expr_info e))).
Qed.

End CatalogEntries.

Lemma catalog_entries_witness :
  (Some (IsLicense {| License.id := "MIT"; License.friendly_id := "MIT";
                      License.custom := false |})
   = Some (IsExpr (@make_expr sample_env "MIT"
                     (@get_spdx_license_expr_info sample_env "MIT")))
   ∧ @needs_expr sample_env "MIT" = true
   ∧ ∃ file, file ∈ Data.files sample_output ∧ File.license_expr file = "MIT")
  ∨ (Some (IsLicense {| License.id := "MIT"; License.friendly_id := "MIT";
                        License.custom := false |})
     = (if @is_spdx_license sample_env "MIT"
        then IsLicense <$> @get_license sample_env "MIT"
        else match Data.licenses sample_input !! "MIT" with
             | Some entry => entry
             | None =>
                 Some (IsLicense
                         (match @get_license sample_env "MIT" with
                          | Some lic => lic
                          | None => License.set_ids "MIT" (@new_License sample_env)
                          end))
             end)
     ∧ ∃ file, file ∈ Data.files sample_output
         ∧ "MIT" ∈ LicenseExprInfo.licenses
                     (@get_spdx_license_expr_info sample_env
                        (File.license_expr file))).
Proof.
  apply (@catalog_entries sample_env sample_input sample_output).
  - apply sample_pre_process.
  - by vm_compute.
Defined.


(** *** Running [pre_process] on its own result *)

Section Rerun.
Context {env : Env}.

Lemma pre_process_detectors d d' :
  pre_process d = Some d' →
  Data.detectors d'
  = collect_detectors (Data.detectors d)
      (set_license_exprs (sort_files (Data.files d))).
Proof.
  intros Hd.
  destruct (pre_process_unfold d) as (pk2 & M & _ & _ & _ & _ & Heq).
  rewrite Heq in Hd. cbn zeta in Hd.
  destruct (sort_licenses _) as [ls|]; [|done]. by injection Hd as <-.
Qed.

(** The second run finds the files and the catalog as the first one left
    them. *)
Lemma pre_process_again d d1 :
  pre_process d = Some d1 →
  ∃ d2, pre_process d1 = Some d2
        ∧ files_out d1 = Data.files d1
        ∧ Data.licenses d2 = Data.licenses d1
        ∧ ids_of d1 = ids_of d.
Proof.
  intros Hd.
  pose proof Hd as (Hfiles & Hlic & Hsort & _ & Hrel & _)%pre_process_Some.
  assert (files_out d1 = Data.files d1) as Hagain by (by eapply files_out_again).
  assert (collect_licenses (Data.licenses d1)
            (set_license_exprs (sort_files (Data.files d1)))
          = Data.licenses d1) as Hlic2.
  { rewrite Hlic at 2.
    rewrite <-(collect_licenses_again (Data.licenses d)), <-Hlic.
    apply collect_licenses_ext.
    by rewrite <-(files_out_exprs d1), Hagain, Hfiles, files_out_exprs. }
  destruct (pre_process_is_Some d1) as [d2 Hd2]; [rewrite Hlic2, Hsort; by eexists|].
  exists d2. split; [done|]. split; [done|].
  pose proof Hd2 as (_ & Hlic' & _)%pre_process_Some.
  split; [by rewrite Hlic'|].
  unfold ids_of. by rewrite (objs_rel_keys _ _ _ Hrel).
Qed.

(** X18. A second run returns, and it reproduces the catalog, both sorted
    lists and the detectors of the first run. *)
Theorem rerun_catalog d d1 :
  pre_process d = Some d1 →
  ∃ d2,
    pre_process d1 = Some d2
    ∧ Data.licenses d2 = Data.licenses d1
    ∧ Data.licenses_sorted d2 = Data.licenses_sorted d1
    ∧ Data.packages_sorted d2 = Data.packages_sorted d1
    ∧ Data.detectors d2 = Data.detectors d1.
Proof.
  intros Hd. destruct (pre_process_again _ _ Hd) as (d2 & Hd2 & Hagain & Hlic & Hids).
  exists d2. split; [done|]. split; [done|].
  pose proof Hd as (Hfiles & _ & Hsort & Hps & _)%pre_process_Some.
  pose proof Hd2 as (_ & _ & Hsort2 & Hps2 & _)%pre_process_Some.
  split; [rewrite Hlic in Hsort2; congruence|].
  split; [congruence|].
  rewrite (pre_process_detectors _ _ Hd2). apply set_eq. intros x.
  rewrite collect_detectors_spec. split; [|by left].
  intros [?|(f & Hf & Hx)]; [done|].
  unfold set_license_exprs, sort_files in Hf.
  apply list_elem_of_fmap in Hf as (f1 & -> & Hf1).
  rewrite elem_of_sorted_by, Hfiles in Hf1.
  apply elem_of_assign_file_ids in Hf1 as (f0 & i & Hf0 & ->).
  rewrite (pre_process_detectors _ _ Hd), collect_detectors_spec. right.
  by exists f0.
Qed.

End Rerun.

Lemma rerun_catalog_witness :
  ∃ d2,
    @pre_process sample_env sample_output = Some d2
    ∧ Data.licenses d2 = Data.licenses sample_output
    ∧ Data.licenses_sorted d2 = Data.licenses_sorted sample_output
    ∧ Data.packages_sorted d2 = Data.packages_sorted sample_output
    ∧ Data.detectors d2 = Data.detectors sample_output.
Proof.
  apply (@rerun_catalog sample_env sample_input). apply sample_pre_process.
Defined.


Section Idempotence.
Context {env : Env}.

Lemma pre_process_packages d d' :
  pre_process d = Some d' →
  ∃ packages1 M,
    foldlM assign_package_id (1, Data.packages d) (ids_of d)
      = Some (1 + length (ids_of d), packages1)
    ∧ friendly_packages packages1 = Some (Data.packages d', M).
Proof.
  intros Hd.
  destruct (pre_process_unfold d) as (pk2 & M & (pk1 & Hfold & Hfr) & _ & _ & _ & Heq).
  rewrite Heq in Hd. cbn zeta in Hd.
  destruct (sort_licenses _) as [ls|]; [|done].
  cbn [mbind option_bind] in Hd. injection Hd as <-. by exists pk1, M.
Qed.

(** What the package passes produce is left alone by the same passes. *)
Lemma assigned_same c q :
  Package.spdx_id q = Some (package_ref c) →
  is_Some (Package.external_refs q) → assigned c q = q.
Proof.
  destruct q as [pid nm v u b r sp]. cbn. intros -> [r' ->]. done.
Qed.

Lemma normalized_same q :
  is_Some (Package.version q) →
  (is_Some (Package.url q) → is_Some (Package.name q)) →
  (∀ url, Package.url q = Some url → Package.browser_url q = None →
          Py.startswith url "http" = false) →
  normalized q = q.
Proof.
  destruct q as [pid nm v u b r sp]. cbn. intros [v' ->] Hname Hb.
  unfold normalized, default_version. cbn.
  destruct u as [u|]; [|done].
  destruct Hname as [nm' ->]; [by eexists|].
  unfold derive_name, fallback_name, default_browser_url. cbn.
  destruct b as [b|]; [done|]. by rewrite (Hb u).
Qed.

Lemma add_suffixes_name_is_Some n q :
  is_Some (Package.name q) → is_Some (Package.name (add_suffixes n q)).
Proof.
  unfold add_suffixes. intros [nm Hnm]. rewrite Hnm.
  destruct (Package.version q); cbn; [by eexists|by rewrite Hnm].
Qed.

Lemma out_package_stable c n p :
  let p1 := add_suffixes n (normalized (assigned c p)) in
  assigned c p1 = p1 ∧ normalized p1 = p1.
Proof.
  intros p1. subst p1. set (q := assigned c p).
  destruct (add_suffixes_fields n (normalized q)) as (_ & Hu & Hb & Hr).
  destruct (normalized_fields q) as (_ & Hu' & Hr' & Hv' & Hb').
  split.
  - apply assigned_same.
    + by rewrite add_suffixes_spdx_id, normalized_spdx_id.
    + rewrite Hr, Hr'. by eexists.
  - apply normalized_same.
    + rewrite add_suffixes_version, Hv'. by eexists.
    + rewrite Hu, Hu'. intros [url Hurl]. apply add_suffixes_name_is_Some.
      rewrite (normalized_with_url _ _ Hurl), default_browser_url_name.
      apply fallback_name_name.
    + intros url. rewrite Hu, Hu', Hb, Hb'. intros ->.
      destruct (Package.browser_url q); [done|].
      by destruct (Py.startswith url "http").
Qed.

Lemma url_names_inj packages : ∀ i j a b,
  NoDup (url_names packages) →
  packages !! i = Some a → packages !! j = Some b →
  is_Some (Package.url a.2) → is_Some (Package.url b.2) →
  Package.name a.2 = Package.name b.2 → i = j.
Proof.
  unfold url_names.
  induction packages as [|kp packages IH]; intros i j a b Hnd Hi Hj Ha Hb Hab;
    [done|].
  assert (∀ x, x ∈ packages → is_Some (Package.url x.2) →
               is_Some (Package.url kp.2) → Package.name x.2 ≠ Package.name kp.2)
    as Hhead.
  { intros x Hx Hxu Hku Heq. cbn [List.filter] in Hnd.
    rewrite bool_decide_eq_true_2 in Hnd by done.
    cbn [fmap list_fmap] in Hnd. apply NoDup_cons in Hnd as [Hnin _].
    apply Hnin. rewrite <-Heq. apply list_elem_of_fmap. exists x. split; [done|].
    apply list_elem_of_In, filter_In. split; [by apply list_elem_of_In|].
    by apply bool_decide_eq_true_2. }
  assert (NoDup ((λ kp, Package.name kp.2)
                   <$> List.filter (λ kp, bool_decide (is_Some (Package.url kp.2)))
                         packages)) as Hnd'.
  { cbn [List.filter] in Hnd. destruct (bool_decide _); [|done].
    cbn [fmap list_fmap] in Hnd. by apply NoDup_cons in Hnd as [_ ?]. }
  destruct i as [|i], j as [|j]; cbn in Hi, Hj; [done| | |].
  - injection Hi as <-. exfalso. eapply (Hhead b); [|done..].
    by eapply list_elem_of_lookup_2.
  - injection Hj as <-. exfalso. eapply (Hhead a); [|done..].
    by eapply list_elem_of_lookup_2.
  - f_equal. by eapply (IH i j a b).
Qed.

Lemma set_obj_same packages i p :
  get_obj packages i = Some p → set_obj i p packages = packages.
Proof.
  unfold get_obj, set_obj. intros Hp. apply list_eq. intros j.
  destruct (decide (j = i)) as [->|Hne].
  - rewrite list_lookup_alter_eq. destruct (packages !! i) as [[k q]|]; [|done].
    cbn in *. congruence.
  - by rewrite list_lookup_alter_ne.
Qed.

(** The naming loop on packages that are in final form and whose names do
    not collide. *)
Lemma foldlM_name_step_fixed packages n : ∀ i M,
  (∀ j p, get_obj packages j = Some p → normalized p = p) →
  NoDup (url_names packages) →
  i + n = length packages →
  (∀ nm e, M !! nm = Some e →
     e < i ∧ ∃ p, get_obj packages e = Some p ∧ Package.name p = Some nm
                  ∧ is_Some (Package.url p)) →
  ∃ M', foldlM name_step (packages, M) (seq i n) = Some (packages, M').
Proof.
  induction n as [|n IH]; intros i M Hnorm Hnd Hlen HM; [by eexists|].
  cbn [seq foldlM].
  destruct (get_obj_lt packages i ltac:(lia)) as [p Hp].
  pose proof (Hnorm _ _ Hp) as Hpn.
  destruct (Package.url p) as [url|] eqn:Hu.
  - assert (is_Some (Package.name (normalized p))) as [nm Hnm].
    { rewrite (normalized_with_url _ _ Hu), default_browser_url_name.
      apply fallback_name_name. }
    assert (M !! nm = None) as Hfree.
    { destruct (M !! nm) as [e|] eqn:He; [|done]. exfalso.
      destruct (HM _ _ He) as (Hei & pe & Hpe & Hpen & Hpeu).
      unfold get_obj in Hp, Hpe.
      destruct (packages !! i) as [a|] eqn:Ha; [|done].
      destruct (packages !! e) as [b|] eqn:Hb; [|done].
      cbn in Hp, Hpe. injection Hp as Hp. injection Hpe as Hpe.
      assert (e = i); [|lia].
      eapply (url_names_inj packages e i b a); [done..| | |].
      - by rewrite Hpe.
      - rewrite Hp, Hu. by eexists.
      - rewrite Hp, Hpe, Hpen, <-Hnm. by rewrite Hpn. }
    rewrite (name_step_free _ _ _ _ _ _ Hp Hu Hnm Hfree).
    cbn [mbind option_bind]. rewrite Hpn, (set_obj_same _ _ _ Hp).
    apply IH; [done..|lia|].
    intros nm' e [[<- <-]|[_ He]]%lookup_insert_Some.
    + split; [lia|]. exists p. split; [done|]. split; [by rewrite <-Hpn|].
      rewrite Hu. by eexists.
    + destruct (HM _ _ He) as (? & ?). split; [lia|done].
  - rewrite (name_step_no_url _ _ _ _ Hp Hu). cbn [mbind option_bind].
    rewrite <-(normalized_no_url p) by (by rewrite default_version_url).
    rewrite Hpn, (set_obj_same _ _ _ Hp).
    apply IH; [done..|lia|].
    intros nm e He. destruct (HM _ _ He) as (? & ?). split; [lia|done].
Qed.

Lemma friendly_packages_fixed packages :
  (∀ j p, get_obj packages j = Some p → normalized p = p) →
  NoDup (url_names packages) →
  ∃ M, friendly_packages packages = Some (packages, M).
Proof.
  intros Hnorm Hnd. apply foldlM_name_step_fixed; [done..|].
  intros nm e. by rewrite lookup_empty.
Qed.

(** The packages of a result, one by one. *)
Lemma packages_out_stable d d1 i k p1 :
  NoDup (dict_keys (Data.packages d)) →
  pre_process d = Some d1 →
  Data.packages d1 !! i = Some (k, p1) →
  ∃ j, ids_of d !! j = Some k ∧ assigned (1 + j) p1 = p1 ∧ normalized p1 = p1.
Proof.
  intros Hnd Hd Hi.
  pose proof Hd as (_ & _ & _ & _ & Hrel & _)%pre_process_Some.
  destruct (Forall2_lookup_r _ _ _ _ _ Hrel Hi) as ([k0 p0] & Hi0 & Hk & _).
  cbn in Hk. subst k0.
  destruct (packages_at _ _ _ _ _ Hd Hi0) as (q & n & _ & Hi' & _ & Hj).
  destruct (Hj Hnd) as (j & Hjk & ->).
  rewrite Hi in Hi'. injection Hi' as ->.
  exists j. split; [done|]. apply out_package_stable.
Qed.

Lemma assign_again d d1 :
  NoDup (dict_keys (Data.packages d)) →
  pre_process d = Some d1 →
  foldlM assign_package_id (1, Data.packages d1) (ids_of d1)
  = Some (1 + length (ids_of d1), Data.packages d1).
Proof.
  intros Hnd Hd.
  pose proof Hd as (_ & _ & _ & _ & Hrel & _)%pre_process_Some.
  assert (dict_keys (Data.packages d1) = dict_keys (Data.packages d)) as Hkeys
    by (by eapply objs_rel_keys).
  assert (ids_of d1 = ids_of d) as Hids by (unfold ids_of; by rewrite Hkeys).
  destruct (foldlM_assign_package_id (ids_of d1) 1 (Data.packages d1))
    as (pk & Hfold & Hrel1 & _).
  { intros k0. apply elem_of_sorted. }
  rewrite Hfold. do 2 f_equal. apply list_eq. intros i.
  destruct (Data.packages d1 !! i) as [[k p1]|] eqn:Hi.
  - destruct (packages_out_stable _ _ _ _ _ Hnd Hd Hi) as (j & Hj & Ha & _).
    assert (NoDup (dict_keys (Data.packages d1))) as Hnd1 by (by rewrite Hkeys).
    assert (NoDup (ids_of d1)) as Hnd2 by (by apply NoDup_ids_of).
    destruct (foldlM_assign_package_id_lookup _ _ _ _ _ Hnd1 Hnd2
                Hfold _ _ _ Hi) as [Hin _].
    rewrite Hids in Hin. rewrite (Hin _ Hj). by rewrite Ha.
  - apply lookup_ge_None in Hi. apply lookup_ge_None.
    by rewrite <-(Forall2_length _ _ _ Hrel1).
Qed.

Lemma package_spdx_id_ext packages packages' k :
  Forall2 (λ a b, b.1 = a.1 ∧ Package.spdx_id b.2 = Package.spdx_id a.2)
    packages packages' →
  package_spdx_id packages' k = package_spdx_id packages k.
Proof.
  unfold package_spdx_id.
  induction 1 as [|[k1 p1] [k2 p2] l l' [Hk Hs] Hl IH]; [done|].
  cbn in Hk, Hs. subst k2. cbn [dict_get].
  case_decide; [|done]. cbn [mbind option_bind]. by rewrite Hs.
Qed.

Lemma relationships_ext packages packages' pwf ids groups :
  (∀ k, package_spdx_id packages' k = package_spdx_id packages k) →
  describe_list packages' pwf ids = describe_list packages pwf ids
  ∧ contains_list packages' groups = contains_list packages groups.
Proof.
  intros Hext. unfold describe_list, contains_list. split.
  - induction ids as [|k ids IH]; [done|].
    rewrite !bind_cons, IH. f_equal. unfold describe_one. by rewrite Hext.
  - induction groups as [|g groups IH]; [done|].
    rewrite !bind_cons, IH. f_equal. unfold contains_one. by rewrite Hext.
Qed.

(** X19. A second run changes nothing but, possibly, package names: it
    returns the relationships of the first run, and every package as the
    first run left it, apart from version suffixes that new collisions add
    to the name. *)
Theorem rerun_packages d d1 :
  NoDup (dict_keys (Data.packages d)) →
  pre_process d = Some d1 →
  ∃ d2,
    pre_process d1 = Some d2
    ∧ Data.relationships d2 = Data.relationships d1
    ∧ length (Data.packages d2) = length (Data.packages d1)
    ∧ ∀ i k p1, Data.packages d1 !! i = Some (k, p1) →
        ∃ n, Data.packages d2 !! i = Some (k, add_suffixes n p1).
Proof.
  intros Hnd Hd.
  destruct (pre_process_again _ _ Hd) as (d2 & Hd2 & Hagain & Hlic & Hids).
  exists d2. split; [done|].
  pose proof Hd as (Hfiles1 & _ & _ & _ & Hrel1 & _ & Hrels1)%pre_process_Some.
  pose proof Hd2 as (_ & _ & _ & _ & Hrel2 & _ & Hrels2)%pre_process_Some.
  assert (NoDup (dict_keys (Data.packages d1))) as Hnd1
    by (by rewrite (objs_rel_keys _ _ _ Hrel1)).
  assert (∀ i k p1, Data.packages d1 !! i = Some (k, p1) →
            ∃ n, Data.packages d2 !! i = Some (k, add_suffixes n p1)) as Hpk.
  { intros i k p1 Hi.
    destruct (packages_out_stable _ _ _ _ _ Hnd Hd Hi) as (j & Hj & Ha & Hn).
    destruct (packages_at _ _ _ _ _ Hd2 Hi) as (q & n & _ & Hi2 & _ & Hj2).
    destruct (Hj2 Hnd1) as (j2 & Hj2k & ->). rewrite Hids in Hj2k.
    assert (j2 = j) as ->
      by (eapply (NoDup_lookup (ids_of d)); [by apply NoDup_ids_of|done..]).
    exists n. by rewrite Hi2, Ha, Hn. }
  split; [|split; [symmetry; by eapply Forall2_length|done]].
  rewrite Hrels2, Hagain, Hids, Hfiles1. rewrite Hrels1 at 2. f_equal.
  f_equal; [rewrite Hrels1; apply filter_keep_result|].
  destruct (relationships_ext (Data.packages d1) (Data.packages d2)
              (list_to_set (dict_keys (group_files (files_out d)))) (ids_of d)
              (group_files (files_out d))) as [-> ->]; [|done].
  intros k. apply package_spdx_id_ext.
  apply Forall2_same_length_lookup. split; [by eapply Forall2_length|].
  intros i [k1 p1] [k2 p2] Hi1 Hi2.
  destruct (Hpk _ _ _ Hi1) as (n & Hi2'). rewrite Hi2 in Hi2'.
  injection Hi2' as -> ->. split; [done|]. cbn. apply add_suffixes_spdx_id.
Qed.

(** X20. [pre_process] is idempotent on its results whose packages with a
    url bear pairwise different names: run on such a result, it returns the
    very same data set. *)
Theorem pre_process_fixpoint d d1 :
  NoDup (dict_keys (Data.packages d)) →
  pre_process d = Some d1 →
  NoDup (url_names (Data.packages d1)) →
  pre_process d1 = Some d1.
Proof.
  intros Hnd Hd Hnames.
  destruct (pre_process_again _ _ Hd) as (d2 & Hd2 & Hagain & Hlic & Hids).
  rewrite Hd2. f_equal.
  pose proof Hd as (Hfiles1 & _ & Hsort1 & Hps1 & _ & _ & Hrels1)%pre_process_Some.
  pose proof Hd2 as (Hfiles2 & _ & Hsort2 & Hps2 & _ & _ & Hrels2)%pre_process_Some.
  assert (Data.packages d2 = Data.packages d1) as Hpk.
  { destruct (pre_process_packages _ _ Hd2) as (pk1 & M & Hfold & Hfr).
    rewrite (assign_again _ _ Hnd Hd) in Hfold. injection Hfold as <-.
    destruct (friendly_packages_fixed (Data.packages d1)) as [M' HM']; [|done|].
    - intros j p Hp. unfold get_obj in Hp.
      destruct (Data.packages d1 !! j) as [[k q]|] eqn:Hj; [|done].
      cbn in Hp. injection Hp as ->.
      by destruct (packages_out_stable _ _ _ _ _ Hnd Hd Hj) as (_ & _ & _ & ?).
    - congruence. }
  assert (Data.detectors d2 = Data.detectors d1) as Hdet.
  { rewrite (pre_process_detectors _ _ Hd2). apply set_eq. intros x.
    rewrite collect_detectors_spec. split; [|by left].
    intros [?|(f & Hf & Hx)]; [done|].
    unfold set_license_exprs, sort_files in Hf.
    apply list_elem_of_fmap in Hf as (f1 & -> & Hf1).
    rewrite elem_of_sorted_by, Hfiles1 in Hf1.
    apply elem_of_assign_file_ids in Hf1 as (f0 & i & Hf0 & ->).
    rewrite (pre_process_detectors _ _ Hd), collect_detectors_spec. right.
    by exists f0. }
  assert (Data.relationships d2 = Data.relationships d1) as Hrels.
  { rewrite Hrels2, Hpk, Hagain, Hids, Hfiles1. rewrite Hrels1 at 2.
    f_equal. f_equal. rewrite Hrels1. apply filter_keep_result. }
  destruct d1, d2; cbn in *. f_equal; congruence.
Qed.

End Idempotence.

Lemma rerun_packages_witness :
  ∃ d2,
    @pre_process sample_env named_output = Some d2
    ∧ Data.relationships d2 = Data.relationships named_output
    ∧ length (Data.packages d2) = length (Data.packages named_output)
    ∧ ∀ i k p1, Data.packages named_output !! i = Some (k, p1) →
        ∃ n, Data.packages d2 !! i = Some (k, add_suffixes n p1).
Proof.
  apply (@rerun_packages sample_env named_input).
  - apply (bool_decide_unpack _). by vm_compute.
  - apply named_pre_process.
Defined.

Lemma pre_process_fixpoint_witness :
  @pre_process sample_env sample_output = Some sample_output.
Proof.
  apply (@pre_process_fixpoint sample_env sample_input).
  - apply sample_packages_NoDup.
  - apply sample_pre_process.
  - apply (bool_decide_unpack _). by vm_compute.
Defined.


(** *** The order of the relationships (lines 136-162) *)

Section RelationshipOrder.
Context {env : Env}.

Lemma kept_not_contains s r :
  should_keep_relationship r = true → is_contains_of s r = false.
Proof.
  unfold should_keep_relationship, is_contains_of.
  destruct (bool_decide (Relationship.relationship_type r = "CONTAINS")).
  - by destruct (_ && _).
  - intros _. apply andb_false_r.
Qed.

Lemma filter_contains_one packages group s :
  List.filter (is_contains_of s) (contains_one packages group)
  = if bool_decide (package_spdx_id packages group.1 = Some s)
    then contains s <$> group.2 else [].
Proof.
  unfold contains_one. destruct (package_spdx_id packages group.1) as [s'|]; [|done].
  case_bool_decide as Hs.
  - injection Hs as ->. apply filter_all, Forall_forall.
    intros r (fid & -> & _)%list_elem_of_fmap. unfold is_contains_of. cbn.
    by rewrite bool_decide_eq_true_2.
  - apply filter_none, Forall_forall.
    intros r (fid & -> & _)%list_elem_of_fmap. unfold is_contains_of. cbn.
    rewrite bool_decide_eq_false_2; [done|congruence].
Qed.

Lemma filter_contains_list packages groups s k :
  NoDup (dict_keys groups) →
  package_spdx_id packages k = Some s →
  (∀ k', package_spdx_id packages k' = Some s → k' = k) →
  List.filter (is_contains_of s) (contains_list packages groups)
  = contains s <$> default [] (dict_get groups k).
Proof.
  intros Hnd Hk Hinj. unfold contains_list, dict_keys in *.
  induction groups as [|[k0 fids] groups IH]; [done|].
  apply NoDup_cons in Hnd as [Hk0 Hnd].
  rewrite bind_cons, List.filter_app, filter_contains_one, (IH Hnd).
  cbn [fst snd dict_get]. case_decide as Hkk.
  - subst k0. rewrite bool_decide_eq_true_2 by done.
    assert (dict_get groups k = None) as -> by (by apply dict_get_None).
    cbn. by rewrite app_nil_r.
  - rewrite bool_decide_eq_false_2; [done|]. intros Hs. by apply Hkk, Hinj.
Qed.

(** X21. The CONTAINS edges of a package stand in [data.relationships] in
    the order of [data.files]: they are the identifiers of the files of that
    package, one edge each, in list order. *)
Theorem contains_in_file_order d d' k p s rels :
  pre_process d = Some d' →
  dict_get (Data.packages d') k = Some p →
  Package.spdx_id p = Some s →
  Data.relationships d' = Some rels →
  List.filter (is_contains_of s) rels = contains s <$> owned (Data.files d') k.
Proof.
  intros Hd Hp Hs Hrels.
  pose proof Hd as (Hfiles & _ & _ & _ & _ & _ & Hrels')%pre_process_Some.
  rewrite Hrels' in Hrels. injection Hrels as <-.
  assert (package_spdx_id (Data.packages d') k = Some s) as Hks
    by (apply (package_spdx_id_Some d d'); eauto).
  rewrite !List.filter_app.
  rewrite (filter_none _ (base_relationships _)).
  2:{ eapply Forall_impl; [apply base_relationships_all_kept|].
      intros r. apply kept_not_contains. }
  rewrite (filter_none _ (describe_list _ _ _)).
  2:{ apply Forall_forall. intros r (k' & s' & _ & _ & _ & ->)%elem_of_describe_list.
      unfold is_contains_of. cbn. apply andb_false_r. }
  rewrite (filter_contains_list _ _ s k);
    [|apply group_files_NoDup|done|
     intros k' Hk'; by eapply (package_spdx_id_inj d d')].
  cbn [app]. rewrite dict_get_group_files, <-Hfiles.
  by destruct (owned (Data.files d') k).
Qed.


End RelationshipOrder.

Lemma contains_in_file_order_witness :
  List.filter (is_contains_of "SPDXRef-Package-3")
    [describes "SPDXRef-Package-2"; describes "SPDXRef-Package-3";
     contains "SPDXRef-Package-2" "SPDXRef-File-1";
     contains "SPDXRef-Package-3" "SPDXRef-File-2";
     contains "SPDXRef-Package-3" "SPDXRef-File-3"]
  = contains "SPDXRef-Package-3" <$> owned (Data.files sample_output) "zephyr".
Proof.
  apply (@contains_in_file_order sample_env sample_input sample_output "zephyr"
           (default (sample_package "" None None None)
              (dict_get (Data.packages sample_output) "zephyr"))).
  - apply sample_pre_process.
  - reflexivity.
  - reflexivity.
  - reflexivity.
Defined.



(** *** Identifiers covered by a compound expression (line 33) *)

Section Subsumed.
Context {env : Env}.

Lemma tokens_cons t raw : raw ≠ [] → tokens (t :: raw) = upper t :: tokens raw.
Proof. intros Hraw. by rewrite !tokens_nonempty. Qed.

(** X23. A bare identifier that a compound expression of the same file
    already names is dropped from [license_expr]: adding such a token to the
    license list of a file leaves the expression as it is. *)
Theorem subsumed_identifier_dropped t u raw :
  u ∈ raw →
  is_compound (get_spdx_license_expr_info (upper u)) = true →
  upper t ∈ LicenseExprInfo.licenses (get_spdx_license_expr_info (upper u)) →
  is_or_item (get_spdx_license_expr_info (upper t)) = false →
  is_compound (get_spdx_license_expr_info (upper t)) = false →
  build_license_expr (t :: raw) = build_license_expr raw.
Proof.
  intros Hu Hcu Ht Hor Hct.
  assert (raw ≠ []) as Hraw by (intros ->; by apply elem_of_nil in Hu).
  assert (upper u ∈ tokens raw) as Hut
    by (rewrite tokens_nonempty by done; by apply list_elem_of_fmap_2).
  assert (or_expr_items (classify_all (t :: raw)) = or_expr_items (classify_all raw))
    as Hors.
  { apply set_eq. intros x. rewrite !classify_all_or, tokens_cons by done.
    rewrite elem_of_cons. split; [|naive_solver].
    intros [[->|?] ?]; [congruence|done]. }
  assert (repeated_expr_items (classify_all (t :: raw))
          = repeated_expr_items (classify_all raw)) as Hreps.
  { apply set_eq. intros x. rewrite !classify_all_repeated, tokens_cons by done.
    split; [|intros (v & ? & ?); exists v; by rewrite elem_of_cons; auto].
    intros (v & [->|?]%elem_of_cons & Hc & ?); [congruence|by exists v]. }
  assert (simple_expr_items (classify_all (t :: raw))
            ∖ repeated_expr_items (classify_all raw)
          = simple_expr_items (classify_all raw)
              ∖ repeated_expr_items (classify_all raw)) as Hsimple.
  { apply set_eq. intros x.
    rewrite !elem_of_difference, !classify_all_simple, tokens_cons by done.
    rewrite elem_of_cons, classify_all_repeated. split; [|naive_solver].
    intros [[[->|?] ?] Hnot]; [|done]. exfalso. apply Hnot. by exists (upper u). }
  unfold build_license_expr. cbn zeta. by rewrite Hors, Hreps, Hsimple.
Qed.

End Subsumed.

Lemma subsumed_identifier_dropped_witness :
  @build_license_expr sample_env ["MIT"; "Apache-2.0 AND MIT"]
  = @build_license_expr sample_env ["Apache-2.0 AND MIT"].
Proof.
  apply (@subsumed_identifier_dropped sample_env "MIT" "Apache-2.0 AND MIT").
  - apply list_elem_of_here.
  - reflexivity.
  - apply (bool_decide_unpack _). by vm_compute.
  - reflexivity.
  - reflexivity.
Defined.


(** *** The items of a license expression (lines 33-36) *)

Section ExprItemsFacts.
Context {env : Env}.

Lemma size_gt_1 (X : gset string) :
  1 < size X ↔ ∃ y z, y ∈ X ∧ z ∈ X ∧ y ≠ z.
Proof.
  split.
  - intros Hsize.
    destruct (size_pos_elem_of X ltac:(lia)) as [y Hy].
    assert (0 < size (X ∖ {[y]})) as Hpos.
    { rewrite size_difference by set_solver. rewrite size_singleton. lia. }
    destruct (size_pos_elem_of _ Hpos) as [z Hz].
    exists y, z. set_solver.
  - intros (y & z & Hy & Hz & Hne).
    assert (size ({[y]} ∪ {[z]} : gset string) = 2) as Htwo.
    { rewrite size_union by set_solver. by rewrite !size_singleton. }
    assert (size ({[y]} ∪ {[z]} : gset string) ≤ size X); [|lia].
    apply subseteq_size. set_solver.
Qed.

Lemma size_gt_0 (X : gset string) : 0 < size X ↔ ∃ t, t ∈ X.
Proof.
  split; [apply size_pos_elem_of|]. intros [t Ht].
  destruct (decide (size X = 0)) as [Hz%size_empty_iff|]; [set_solver|lia].
Qed.

(** X24. [license_expr] is the [' AND '] join of its items in ascending
    order, each item once.  The items are the simple tokens that no compound
    token names, and the or-items; every or-item is wrapped in parentheses
    when there are two or more of them or when a simple item stands beside
    them, and none is wrapped otherwise. *)
Theorem license_expr_items raw :
  ∃ l wrap,
    build_license_expr raw = Py.join " AND " l
    ∧ Sorted String.le l
    ∧ NoDup l
    ∧ (∀ x, x ∈ l ↔
         (x ∈ simple_expr_items (classify_all raw)
          ∧ x ∉ repeated_expr_items (classify_all raw))
         ∨ ∃ y, y ∈ or_expr_items (classify_all raw) ∧ x = wrap y)
    ∧ ((wrap = parenthesize
        ∧ ((∃ y z, y ∈ or_expr_items (classify_all raw)
                   ∧ z ∈ or_expr_items (classify_all raw) ∧ y ≠ z)
           ∨ ∃ t, t ∈ simple_expr_items (classify_all raw)
                  ∧ t ∉ repeated_expr_items (classify_all raw)))
       ∨ (wrap = id
          ∧ (∀ y z, y ∈ or_expr_items (classify_all raw) →
                    z ∈ or_expr_items (classify_all raw) → y = z)
          ∧ ∀ t, t ∈ simple_expr_items (classify_all raw) →
                 t ∈ repeated_expr_items (classify_all raw))).
Proof.
  unfold build_license_expr. cbn zeta.
  set (items := classify_all raw).
  set (S := simple_expr_items items ∖ repeated_expr_items items).
  set (O := or_expr_items items).
  destruct (bool_decide (1 < size O) || bool_decide (0 < size S)) eqn:Hcond.
  - exists (Py.sorted (elements (S ∪ set_map parenthesize O))), parenthesize.
    split; [done|]. split; [apply (sorted_by_Sorted id)|]. split.
    { unfold Py.sorted. rewrite sorted_by_Permutation. apply NoDup_elements. }
    split.
    { intros x. rewrite elem_of_sorted, elem_of_elements, elem_of_union.
      unfold S. rewrite elem_of_difference, elem_of_map. naive_solver. }
    left. split; [done|].
    apply orb_true_iff in Hcond as [H1%bool_decide_eq_true|H0%bool_decide_eq_true].
    + left. by apply size_gt_1.
    + right. apply size_gt_0 in H0 as [t Ht]. exists t.
      unfold S in Ht. by apply elem_of_difference in Ht.
  - exists (Py.sorted (elements (S ∪ O))), id.
    split; [done|]. split; [apply (sorted_by_Sorted id)|]. split.
    { unfold Py.sorted. rewrite sorted_by_Permutation. apply NoDup_elements. }
    split.
    { intros x. rewrite elem_of_sorted, elem_of_elements, elem_of_union.
      unfold S. rewrite elem_of_difference. naive_solver. }
    right. split; [done|].
    apply orb_false_iff in Hcond as [H1%bool_decide_eq_false H0%bool_decide_eq_false].
    split.
    + intros y z Hy Hz. destruct (decide (y = z)) as [|Hne]; [done|].
      exfalso. apply H1, size_gt_1. by exists y, z.
    + intros t Ht.
      destruct (decide (t ∈ repeated_expr_items items)) as [|Hn]; [done|].
      exfalso. apply H0, size_gt_0. exists t. unfold S. set_solver.
Qed.

End ExprItemsFacts.

Section ExprRecomputed.
Context {env : Env}.

(** X25. [license_expr] is computed from [licenses] alone: in the result,
    every file bears the expression of its own license list, whatever
    [license_expr] it came with, so two files with the same list bear the
    same expression. *)
Theorem license_expr_recomputed d d' :
  pre_process d = Some d' →
  (∀ file, file ∈ Data.files d' →
     File.license_expr file = build_license_expr (File.licenses file))
  ∧ (∀ file1 file2, file1 ∈ Data.files d' → file2 ∈ Data.files d' →
       File.licenses file1 = File.licenses file2 →
       File.license_expr file1 = File.license_expr file2).
Proof.
  intros (Hfiles & _)%pre_process_Some. rewrite Hfiles.
  assert (∀ file, file ∈ files_out d →
            File.license_expr file = build_license_expr (File.licenses file))
    as Hexpr by apply files_out_license_expr.
  split; [done|].
  intros f1 f2 Hf1 Hf2 Heq. by rewrite (Hexpr _ Hf1), (Hexpr _ Hf2), Heq.
Qed.

End ExprRecomputed.

Lemma license_expr_recomputed_witness :
  (∀ file, file ∈ Data.files sample_output →
     File.license_expr file = @build_license_expr sample_env (File.licenses file))
  ∧ (∀ file1 file2,
       file1 ∈ Data.files sample_output → file2 ∈ Data.files sample_output →
       File.licenses file1 = File.licenses file2 →
       File.license_expr file1 = File.license_expr file2).
Proof.
  apply (@license_expr_recomputed sample_env sample_input).
  apply sample_pre_process.
Defined.
